(** * Commute-plan normalizer of the Columbia transit board

    A shallow embedding of the shuttle half of [server.js]: the helpers
    [minutesFromNow], [formatTime], [filterTripsAfterNYCNow] and the
    normalizer [parseTripShotCommutePlanForOrigin] with its inner functions
    [isWalkingRide] and [considerRide].  The handlers of the two endpoints,
    [GET /api/shuttle] and [GET /api/subway], follow, with the upstream
    answers, the instants of [new Date()] and the readings of [Date.now()]
    as arguments.

    The repository holds two revisions of the file.  Revision 14 is
    [src/server.js]; revision 15 adds the New-York clock and the future-trip
    filter.  Their normalizers differ in two places only (the exclusion
    pattern and the display colour), so one definition carries a [revision]
    argument and branches at exactly those two places.

    The normalizer reads a document produced by [JSON.parse] with the
    ordinary JavaScript operators ([||], property access, method calls,
    [for ... of]), so the embedding works on JavaScript values and gives each
    operator its meaning on them, a thrown [TypeError] included. *)

From Stdlib Require Import ZArith List String Ascii Bool Lia.
From Stdlib Require Import DecimalString DecimalZ Sorted Permutation.
Import ListNotations.

Local Open Scope string_scope.
Local Open Scope Z_scope.

Set Warnings "-register-all".

(* ================================================================= *)
(** ** Results of evaluation *)

(** The only exception the code under study can raise is the engine's
    [TypeError] (property read on [null]/[undefined], call of something that
    is not a function, iteration over something that is not iterable,
    conversion of an object without a usable [toString]). *)
Inductive error : Type := TypeError.

Inductive result (A : Type) : Type :=
| Ok (a : A)
| Throw (e : error).
Arguments Ok {A} a.
Arguments Throw {A} e.

Definition bind {A B : Type} (m : result A) (k : A -> result B) : result B :=
  match m with
  | Ok a => k a
  | Throw e => Throw e
  end.

Notation "x <- m ;; k" := (bind m (fun x => k))
  (at level 61, m at next level, right associativity).
Notation "' pat <- m ;; k" := (bind m (fun x => match x with pat => k end))
  (at level 61, pat pattern, m at next level, right associativity).

(** A loop [for (const x of xs) body], the loop state threaded by hand. *)
Fixpoint forOf {A S : Type} (body : S -> A -> result S) (xs : list A) (s : S)
  : result S :=
  match xs with
  | [] => Ok s
  | x :: xs' => s' <- body s x ;; forOf body xs' s'
  end.

(* ================================================================= *)
(** ** JavaScript values *)

(** What [JSON.parse] can return, plus [undefined] and the built-in function
    objects that a lookup in a plain object can reach through
    [Object.prototype].  A string is the sequence of its bytes.  A number is
    an integer: the upstream format has no number in a field that this
    program reads, and one that turns up there is tested for truth, written
    out as a key, or taken as a count of milliseconds.  An object is the
    list of its own properties, each key once. *)
Inductive value : Type :=
| VUndefined
| VNull
| VBool (b : bool)
| VNum (n : Z)
| VStr (s : string)
| VArr (elems : list value)
| VObj (props : list (string * value))
| VFun (fname : string).

(** ToBoolean. *)
Definition truthy (v : value) : bool :=
  match v with
  | VUndefined | VNull => false
  | VBool b => b
  | VNum n => negb (n =? 0)
  | VStr s => negb (s =? "")%string
  | VArr _ | VObj _ | VFun _ => true
  end.

(** [a || b] once both operands are evaluated. *)
Definition or_ (a b : value) : value := if truthy a then a else b.

(** [typeof v === "object"]; [null] answers yes. *)
Definition typeof_object (v : value) : bool :=
  match v with
  | VNull | VArr _ | VObj _ => true
  | _ => false
  end.

Fixpoint assoc (k : string) (props : list (string * value)) : option value :=
  match props with
  | [] => None
  | (k', v) :: rest => if (k =? k')%string then Some v else assoc k rest
  end.

Definition string_of_nat (n : nat) : string :=
  NilZero.string_of_uint (Nat.to_uint n).

Definition string_of_Z (z : Z) : string :=
  NilZero.string_of_int (Z.to_int z).

(** The index keys ["0"], ["1"], ... of an array or string of length [n]. *)
Definition indexKeys (n : nat) : list string := map string_of_nat (seq 0 n).

Fixpoint charsOf (s : string) : list string :=
  match s with
  | EmptyString => []
  | String c s' => String c EmptyString :: charsOf s'
  end.

Fixpoint atKey {A : Type} (k : string) (i : nat) (xs : list A) : option A :=
  match xs with
  | [] => None
  | x :: xs' => if (k =? string_of_nat i)%string then Some x
                else atKey k (S i) xs'
  end.

(** [Object.keys(v)] for a value that is not [null] or [undefined]. *)
Definition Object_keys (v : value) : list string :=
  match v with
  | VObj props => map fst props
  | VArr elems => indexKeys (List.length elems)
  | VStr s => indexKeys (List.length (charsOf s))
  | _ => []
  end.

Definition opt (o : option value) : value :=
  match o with Some v => v | None => VUndefined end.

(** [v[k]] for a receiver other than [null] and [undefined].  None of the
    names this program reads is defined on the prototypes of strings,
    numbers, booleans, arrays or plain objects, so a miss is [undefined];
    a function object answers its [name]. *)
Definition prop (v : value) (k : string) : value :=
  match v with
  | VObj props => opt (assoc k props)
  | VArr elems => opt (atKey k 0%nat elems)
  | VStr s => opt (option_map VStr (atKey k 0%nat (charsOf s)))
  | VFun n => if (k =? "name")%string then VStr n else VUndefined
  | _ => VUndefined
  end.

(** [v[k]] and [v.k]. *)
Definition get (v : value) (k : string) : result value :=
  match v with
  | VUndefined | VNull => Throw TypeError
  | _ => Ok (prop v k)
  end.

(** [node.k1 || node.k2 || ... || node.kn]: the first truthy field, else the
    last one read, whatever it holds. *)
Fixpoint firstOf (node : value) (ks : list string) : result value :=
  match ks with
  | [] => Ok VUndefined
  | [k] => get node k
  | k :: ks' => v <- get node k ;; if truthy v then Ok v else firstOf node ks'
  end.

Fixpoint joinWith (sep : string) (parts : list string) : string :=
  match parts with
  | [] => ""
  | [p] => p
  | p :: ps => p ++ sep ++ joinWith sep ps
  end.

(** ToString.  A parsed object converts through [Object.prototype.toString]
    unless it has an own property [toString], which cannot be a function and
    leaves [valueOf] returning the object itself: a [TypeError].  An array
    joins its elements with commas, [null] and [undefined] as empty. *)
Fixpoint toStr (v : value) : result string :=
  match v with
  | VUndefined => Ok "undefined"
  | VNull => Ok "null"
  | VBool b => Ok (if b then "true" else "false")
  | VNum n => Ok (string_of_Z n)
  | VStr s => Ok s
  | VArr elems =>
      parts <- (fix go (es : list value) : result (list string) :=
                  match es with
                  | [] => Ok []
                  | e :: es' =>
                      p <- match e with
                           | VUndefined | VNull => Ok ""
                           | _ => toStr e
                           end ;;
                      ps <- go es' ;; Ok (p :: ps)
                  end) elems ;;
      Ok (joinWith "," parts)
  | VObj props =>
      match assoc "toString" props with
      | Some _ => Throw TypeError
      | None => Ok "[object Object]"
      end
  | VFun n => Ok ("function " ++ n ++ "() { [native code] }")
  end.

(** [v.toString()]: the methods of strings, numbers, booleans, arrays and
    plain objects give what ToString gives, and an own property [toString]
    of a parsed object is not callable. *)
Definition callToString (v : value) : result string :=
  match v with
  | VUndefined | VNull => Throw TypeError
  | _ => toStr v
  end.

(** The iteration protocol of [for ... of]: arrays yield their elements,
    strings their characters, nothing else that [JSON.parse] builds is
    iterable.  (A character is a one-element string; the program treats
    all of them alike, so a byte stands for one here.) *)
Definition iterate (v : value) : result (list value) :=
  match v with
  | VArr elems => Ok elems
  | VStr s => Ok (map VStr (charsOf s))
  | _ => Throw TypeError
  end.

(* ================================================================= *)
(** ** The host *)

Definition isAsciiChar (c : ascii) : bool := (nat_of_ascii c <? 128)%nat.

Fixpoint isAscii (s : string) : bool :=
  match s with
  | EmptyString => true
  | String c s' => isAsciiChar c && isAscii s'
  end.

Definition asciiLowerChar (c : ascii) : ascii :=
  let n := nat_of_ascii c in
  if ((65 <=? n) && (n <=? 90))%nat then ascii_of_nat (n + 32) else c.

Definition asciiUpperChar (c : ascii) : ascii :=
  let n := nat_of_ascii c in
  if ((97 <=? n) && (n <=? 122))%nat then ascii_of_nat (n - 32) else c.

Fixpoint asciiLower (s : string) : string :=
  match s with
  | EmptyString => EmptyString
  | String c s' => String (asciiLowerChar c) (asciiLower s')
  end.

(** What the engine and the machine decide, not the program: Unicode
    lower-casing, the date parser and the server's local time zone.  A time
    value is a count of milliseconds since the epoch; [None] is [NaN], the
    time value of an invalid date.  On text made of ASCII characters
    lower-casing is fixed by the language. *)
Class Host : Type := {
  toLowerCase : string -> string;
  toLowerCase_ascii :
    forall s, isAscii s = true -> toLowerCase s = asciiLower s;
  Date_parse : string -> option Z;
  Date_parse_empty : Date_parse "" = None;
  getHours : Z -> Z;
  getMinutes : Z -> Z;
  toLocaleString_en_US_New_York : Z -> string
}.

(** [s.includes(pat)]. *)
Fixpoint includes (s pat : string) : bool :=
  String.prefix pat s ||
  match s with
  | EmptyString => false
  | String _ s' => includes s' pat
  end.

(** [/word/i.test(v)] for a lower-case ASCII [word]: the argument is
    converted to a string; without the [u] flag a character folds only onto
    its own ASCII case variants. *)
Definition regexTestI (word : string) (v : value) : result bool :=
  s <- toStr v ;; Ok (includes (asciiLower s) word).

Definition timeClip (n : Z) : option Z :=
  if Z.abs n <=? 8640000000000000 then Some n else None.

Section WithHost.
Context {host : Host}.

(** [v.toLowerCase()]: only a string has the method. *)
Definition callToLowerCase (v : value) : result string :=
  match v with
  | VStr s => Ok (toLowerCase s)
  | _ => Throw TypeError
  end.

(** [new Date(v).getTime()].  A string is parsed, another primitive is
    converted to a number, an object or array goes through its string. *)
Definition newDate (v : value) : result (option Z) :=
  match v with
  | VUndefined => Ok None
  | VNull => Ok (Some 0)
  | VBool b => Ok (Some (if b then 1 else 0))
  | VNum n => Ok (timeClip n)
  | VStr s => Ok (Date_parse s)
  | VArr _ | VObj _ | VFun _ => s <- toStr v ;; Ok (Date_parse s)
  end.

(** [minutesFromNow], the reading of [Date.now()] passed in.  [Math.round]
    rounds half-way cases up, so on an integer difference [d] it is
    [floor ((d + 30000) / 60000)]; [Math.max(0, NaN)] is [NaN]. *)
Definition minutesFromNow (dateISOString : value) (now : Z)
  : result (option Z) :=
  target <- newDate dateISOString ;;
  Ok (match target with
      | Some t => let diffMs := t - now in
                  Some (Z.max 0 ((diffMs + 30000) / 60000))
      | None => None
      end).

Definition padStart2 (s : string) : string :=
  if (String.length s <? 2)%nat then "0" ++ s else s.

Definition formatTime (dateISOString : value) : result string :=
  d <- newDate dateISOString ;;
  Ok (match d with
      | Some t =>
          let h := getHours t in
          let m := getMinutes t in
          let suffix := if 12 <=? h then "pm" else "am" in
          let h := Z.rem (h + 11) 12 + 1 in
          let mm := padStart2 (string_of_Z m) in
          string_of_Z h ++ ":" ++ mm ++ " " ++ suffix
      | None => "NaN:NaN am"
      end).

(* ================================================================= *)
(** ** Configuration *)

Definition EC_S_STOP_ID : string := "EC00CCCF-1599-454B-A90A-05F7FAD06576".
Definition S120_STOP_ID : string := "db0236ef-fbfa-4254-ae30-ea57dee20a00".
Definition NINETY_SIX_STOP_ID : string := "A5C97705-8217-4D82-A778-01DAA12322A6".

(* ================================================================= *)
(** ** Output entries and the mutable state of one normalization *)

(** [inMinutes] is [None] for [NaN]. *)
Record entry : Type := mkEntry {
  routeName : value;
  color : value;
  time : string;
  rawISO : value;
  inMinutes : option Z;
  direct : bool;
  delayed : bool
}.

Record buckets : Type := mkBuckets {
  green : list entry;
  red : list entry;
  blue : list entry
}.

(** [buckets[key].push(entry)].  [buckets] is a plain object with the three
    own properties; any other key finds nothing that has a [push]. *)
Definition push (key : string) (e : entry) (b : buckets) : result buckets :=
  if (key =? "green")%string then
    Ok (mkBuckets (green b ++ [e]) (red b) (blue b))
  else if (key =? "red")%string then
    Ok (mkBuckets (green b) (red b ++ [e]) (blue b))
  else if (key =? "blue")%string then
    Ok (mkBuckets (green b) (red b) (blue b ++ [e]))
  else Throw TypeError.

(** The buckets filled so far and the number of [Date.now()] readings
    taken so far. *)
Record state : Type := mkState {
  st_buckets : buckets;
  st_ticks : nat
}.

(** The revisions of the file. *)
Inductive revision : Type := Rev14 | Rev15.

(* ================================================================= *)
(** ** The route directory *)

(** [routeInfoById] starts as [{}]: own properties, and a prototype that is
    [Object.prototype] until an assignment to the key ["__proto__"] replaces
    it by the assigned object. *)
Record directory : Type := mkDirectory {
  dir_own : list (string * value);
  dir_proto : option value
}.

Definition emptyDirectory : directory := mkDirectory [] None.

Definition objectPrototypeNames : list string :=
  [ "constructor"; "__defineGetter__"; "__defineSetter__"; "hasOwnProperty";
    "__lookupGetter__"; "__lookupSetter__"; "isPrototypeOf";
    "propertyIsEnumerable"; "toString"; "valueOf"; "toLocaleString" ].

Definition objectPrototypeMember (key : string) : value :=
  if existsb (String.eqb key) objectPrototypeNames then
    VFun (if (key =? "constructor")%string then "Object" else key)
  else VUndefined.

(** [routeInfoById[key] = info] for an object [info]. *)
Definition dirSet (key : string) (info : value) (d : directory) : directory :=
  if (key =? "__proto__")%string then mkDirectory (dir_own d) (Some info)
  else mkDirectory ((key, info) :: dir_own d) (dir_proto d).

(** [routeInfoById[key]]. *)
Definition dirGet (d : directory) (key : string) : value :=
  match assoc key (dir_own d) with
  | Some v => v
  | None =>
      if (key =? "__proto__")%string then
        match dir_proto d with Some p => p | None => VObj [] end
      else
        match dir_proto d with
        | Some (VObj props) =>
            match assoc key props with
            | Some v => v
            | None => objectPrototypeMember key
            end
        | _ => objectPrototypeMember key
        end
  end.

Definition colorLabelOf (name shortName : value) : result string :=
  g1 <- regexTestI "green" name ;;
  g2 <- (if g1 then Ok true else regexTestI "green" shortName) ;;
  if g2 then Ok "Green" else
  r1 <- regexTestI "red" name ;;
  r2 <- (if r1 then Ok true else regexTestI "red" shortName) ;;
  if r2 then Ok "Red" else
  b1 <- regexTestI "blue" name ;;
  b2 <- (if b1 then Ok true else regexTestI "blue" shortName) ;;
  if b2 then Ok "Blue" else Ok "".

(** One turn of [for (const r of routes)]. *)
Definition addRoute (d : directory) (r : value) : result directory :=
  id <- get r "routeId" ;;
  if negb (truthy id) then Ok d else
  let name := or_ (prop r "name") (or_ (prop r "shortName") (VStr "Shuttle")) in
  let shortName := or_ (prop r "shortName") name in
  colorLabel <- colorLabelOf name shortName ;;
  key <- toStr id ;;
  Ok (dirSet key
        (VObj [("id", id); ("name", name); ("shortName", shortName);
               ("colorLabel", VStr colorLabel)]) d).

(* ================================================================= *)
(** ** The normalizer *)

(** [isWalkingRide]. *)
Definition isWalkingRide (ride : value) : result bool :=
  m <- get ride "mode" ;;
  let m := or_ m (or_ (prop ride "type") (VStr "")) in
  s <- callToString m ;;
  let mode := toLowerCase s in
  Ok (includes mode "walk").

(** The unwrapping of one element of [stopStatus]. *)
Definition unwrap (wrapper : value) : value :=
  let keys := Object_keys wrapper in
  if ((List.length keys =? 1)%nat
      && typeof_object (prop wrapper (hd "" keys)))%bool
  then prop wrapper (hd "" keys)
  else wrapper.

(** [(inner.stopId || "").toLowerCase()]. *)
Definition sidOf (inner : value) : result string :=
  sidv <- get inner "stopId" ;;
  callToLowerCase (or_ sidv (VStr "")).

(** One turn of [for (const wrapper of statuses)]; the loop state is the
    pair of [originNode] and [ninetySixNode]. *)
Definition scanStep (originIdLower ninetySixIdLower : string)
    (nodes : value * value) (wrapper : value) : result (value * value) :=
  if negb (truthy wrapper) then Ok nodes else
  let inner := unwrap wrapper in
  sid <- sidOf inner ;;
  let originNode := if (sid =? originIdLower)%string then inner else fst nodes in
  let ninetySixNode :=
    if (sid =? ninetySixIdLower)%string then inner else snd nodes in
  Ok (originNode, ninetySixNode).

(** The exclusion test on the lower-cased names. *)
Definition excludedRoute (rev : revision) (rName rShort : string) : bool :=
  match rev with
  | Rev14 =>
      includes rName "manhattanville" || includes rName "m'ville"
      || includes rName "mville"
      || includes rShort "manhattanville" || includes rShort "m'ville"
      || includes rShort "mville"
  | Rev15 => includes rName "manhattanville" || includes rShort "manhattanville"
  end.

(** The bucket key.  Revision 14 tries the names again when the route has no
    label and forces an unknown key to ["blue"]. *)
Definition colorKeyOf (rev : revision) (routeInfo : value) : result string :=
  let colorLabel := prop routeInfo "colorLabel" in
  match rev with
  | Rev15 =>
      if truthy colorLabel then callToLowerCase colorLabel else Ok "blue"
  | Rev14 =>
      colorKey <-
        (if truthy colorLabel then callToLowerCase colorLabel else
         g1 <- regexTestI "green" (prop routeInfo "name") ;;
         g2 <- (if g1 then Ok true
                else regexTestI "green" (prop routeInfo "shortName")) ;;
         if g2 then Ok "green" else
         r1 <- regexTestI "red" (prop routeInfo "name") ;;
         r2 <- (if r1 then Ok true
                else regexTestI "red" (prop routeInfo "shortName")) ;;
         if r2 then Ok "red" else
         b1 <- regexTestI "blue" (prop routeInfo "name") ;;
         b2 <- (if b1 then Ok true
                else regexTestI "blue" (prop routeInfo "shortName")) ;;
         if b2 then Ok "blue" else Ok "blue") ;;
      if existsb (String.eqb colorKey) ["green"; "red"; "blue"]
      then Ok colorKey else Ok "blue"
  end.

(** [colorKey[0].toUpperCase() + colorKey.slice(1)], applied to one of the
    three keys only. *)
Definition capitalize (s : string) : string :=
  match s with
  | EmptyString => EmptyString
  | String c s' => String (asciiUpperChar c) s'
  end.

(** The [color] field of the entry. *)
Definition displayColor (rev : revision) (routeInfo : value) (colorKey : string)
  : value :=
  match rev with
  | Rev14 => or_ (prop routeInfo "colorLabel") (VStr (capitalize colorKey))
  | Rev15 => or_ (prop routeInfo "colorLabel") (VStr colorKey)
  end.

(** The three fallback chains. *)
Definition scheduledTimeOf (originNode : value) : result value :=
  firstOf originNode
    ["scheduledDepartureTime"; "scheduledArrivalTime"; "scheduledAt"].

Definition liveTimeOf (originNode : value) : result value :=
  scheduledTime <- scheduledTimeOf originNode ;;
  e <- firstOf originNode ["expectedArrivalTime"; "expectedDepartureTime"] ;;
  Ok (or_ e scheduledTime).

Definition ninetySixTimeOf (ninetySixNode : value) : result value :=
  firstOf ninetySixNode
    ["expectedArrivalTime"; "scheduledArrivalTime"; "scheduledAt"].

(** Whether the ride reaches 96th Street after the origin. *)
Definition reaches96Of (liveTime ninetySixNode : value) : result bool :=
  if truthy ninetySixNode then
    ninetySixTime <- ninetySixTimeOf ninetySixNode ;;
    if truthy ninetySixTime then
      originMs <- newDate liveTime ;;
      ninetySixMs <- newDate ninetySixTime ;;
      Ok (match originMs, ninetySixMs with
          | Some a, Some b => a <? b
          | _, _ => false
          end)
    else Ok false
  else Ok false.

(** The delay flag: [(live - scheduled) / 60000 > 1].  Both time values are
    integers of magnitude at most 8.64e15, on which the quotient exceeds 1
    exactly when the difference exceeds 60000; a [NaN] compares false. *)
Definition delayedOf (liveDate : option Z) (scheduledTime : value)
  : result bool :=
  if truthy scheduledTime then
    sched <- newDate scheduledTime ;;
    Ok (match liveDate, sched with
        | Some l, Some s => 60000 <? l - s
        | _, _ => false
        end)
  else Ok false.

Section Normalizer.
Variable rev : revision.
Variable clock : nat -> Z.
Variable originStopId : string.

Definition originIdLower : string := toLowerCase originStopId.
Definition ninetySixIdLower : string := toLowerCase NINETY_SIX_STOP_ID.

(** [statuses] and the scan over it: [originNode] and [ninetySixNode], each
    [null] until a record matches. *)
Definition stopNodes (ride : value) : result (value * value) :=
  statuses <- iterate (or_ (prop ride "stopStatus") (VArr [])) ;;
  forOf (scanStep originIdLower ninetySixIdLower) statuses (VNull, VNull).

(** [considerRide].  Each [return] of the source is an [Ok st] here. *)
Definition considerRide (ride routeInfo : value) (st : state) : result state :=
  if negb (truthy ride) || negb (truthy routeInfo) then Ok st else
  rName <- callToLowerCase (or_ (prop routeInfo "name") (VStr "")) ;;
  rShort <- callToLowerCase (or_ (prop routeInfo "shortName") (VStr "")) ;;
  if excludedRoute rev rName rShort then Ok st else
  ' (originNode, ninetySixNode) <- stopNodes ride ;;
  if negb (truthy originNode) then Ok st else
  scheduledTime <- scheduledTimeOf originNode ;;
  liveTime <- liveTimeOf originNode ;;
  if negb (truthy liveTime) then Ok st else
  reaches96 <- reaches96Of liveTime ninetySixNode ;;
  colorKey <- colorKeyOf rev routeInfo ;;
  liveDate <- newDate liveTime ;;
  time_ <- formatTime liveTime ;;
  inMinutes_ <- minutesFromNow liveTime (clock (st_ticks st)) ;;
  delayed_ <- delayedOf liveDate scheduledTime ;;
  let entry :=
    mkEntry (prop routeInfo "name") (displayColor rev routeInfo colorKey)
            time_ liveTime inMinutes_ reaches96 delayed_ in
  b <- push colorKey entry (st_buckets st) ;;
  Ok (mkState b (S (st_ticks st))).

(** The synthetic route of a ride whose route is not in the directory. *)
Definition placeholderRoute (ride : value) : value :=
  VObj [("id", or_ (prop ride "routeId") (prop ride "routeServiceId"));
        ("name", VStr "Shuttle"); ("shortName", VStr "Shuttle");
        ("colorLabel", VStr "")].

(** One turn of [for (const ride of rides)]. *)
Definition rideStep (routeInfoById : directory) (st : state) (ride : value)
  : result state :=
  walking <- isWalkingRide ride ;;
  if walking then Ok st else
  k1 <- toStr (prop ride "routeId") ;;
  routeInfo <-
    (if truthy (dirGet routeInfoById k1) then Ok (dirGet routeInfoById k1) else
     k2 <- toStr (prop ride "routeServiceId") ;;
     Ok (or_ (dirGet routeInfoById k2) (placeholderRoute ride))) ;;
  considerRide ride routeInfo st.

End Normalizer.

(** The comparator [(a, b) => new Date(a.rawISO) - new Date(b.rawISO)];
    [None] is [NaN]. *)
Definition compareEntries (a b : entry) : result (option Z) :=
  da <- newDate (rawISO a) ;;
  db <- newDate (rawISO b) ;;
  Ok (match da, db with
      | Some x, Some y => Some (x - y)
      | _, _ => None
      end).

(** [arr.sort(compare)].  The language fixes the result when the comparator
    is a consistent order: the sort is stable, elements that compare equal
    keep their order.  This insertion sort computes that result, reading a
    [NaN] answer as "equal" the way the engine does.  When some timestamp is
    invalid the comparator is not an order and the language leaves the
    arrangement to the engine; statements about order are made for valid
    timestamps.  An array of fewer than two elements is never compared. *)
Fixpoint insertSorted (x : entry) (sorted : list entry) : result (list entry) :=
  match sorted with
  | [] => Ok [x]
  | y :: rest =>
      c <- compareEntries y x ;;
      match c with
      | Some d => if 0 <? d then Ok (x :: y :: rest)
                  else r <- insertSorted x rest ;; Ok (y :: r)
      | None => r <- insertSorted x rest ;; Ok (y :: r)
      end
  end.

Definition sortEntries (arr : list entry) : result (list entry) :=
  forOf (fun sorted x => insertSorted x sorted) arr [].

(** The object the normalizer returns. *)
Record output : Type := mkOutput {
  stopName : string;
  out_green : list entry;
  out_red : list entry;
  out_blue : list entry
}.

Definition emptyBuckets : buckets := mkBuckets [] [] [].

(** The two loops of the normalizer: the route directory, then the rides.
    [clock n] is what the [n]-th call of [Date.now()] answers. *)
Definition fillBuckets (rev : revision) (clock : nat -> Z)
    (json : value) (originStopId : string) : result buckets :=
  routes0 <- get json "routes" ;;
  let routes := or_ routes0 (VArr []) in
  let rides := or_ (prop json "rides") (VArr []) in
  routeList <- iterate routes ;;
  routeInfoById <- forOf addRoute routeList emptyDirectory ;;
  rideList <- iterate rides ;;
  st <- forOf (rideStep rev clock originStopId routeInfoById) rideList
          (mkState emptyBuckets 0%nat) ;;
  Ok (st_buckets st).

(** [arr.sort(...)] followed by [arr.slice(0, 3)]. *)
Definition sortAndTake3 (arr : list entry) : result (list entry) :=
  sorted <- sortEntries arr ;; Ok (firstn 3 sorted).

(** [parseTripShotCommutePlanForOrigin]. *)
Definition parseTripShotCommutePlanForOrigin (rev : revision) (clock : nat -> Z)
    (json : value) (originStopId originLabel : string) : result output :=
  b <- fillBuckets rev clock json originStopId ;;
  g <- sortAndTake3 (green b) ;;
  r <- sortAndTake3 (red b) ;;
  bl <- sortAndTake3 (blue b) ;;
  Ok (mkOutput originLabel g r bl).

(* ================================================================= *)
(** ** The future-trip filter (revision 15) *)

(** [getNYCTime] at the instant [instant] of the engine's clock: the instant
    is written out as New-York wall-clock text, and that text is parsed
    again as a date. *)
Definition getNYCTime (instant : Z) : option Z :=
  Date_parse (toLocaleString_en_US_New_York instant).

(** The callback of the filter: [new Date(t.rawISO) >= now] compares the two
    time values, and a [NaN] on either side compares false. *)
Definition isAfterNow (now : option Z) (t : entry) : result bool :=
  if negb (truthy (rawISO t)) then Ok false else
  d <- newDate (rawISO t) ;;
  Ok (match d, now with
      | Some x, Some n => n <=? x
      | _, _ => false
      end).

Fixpoint filterM {A : Type} (f : A -> result bool) (xs : list A)
  : result (list A) :=
  match xs with
  | [] => Ok []
  | x :: xs' =>
      keep <- f x ;;
      rest <- filterM f xs' ;;
      Ok (if keep then x :: rest else rest)
  end.

Definition filterTripsAfterNYCNow (instant : Z) (trips : list entry)
  : result (list entry) :=
  let now := getNYCTime instant in
  filterM (isAfterNow now) trips.

End WithHost.

(* ================================================================= *)
(** ** Vocabulary of the statements *)

Local Open Scope list_scope.

(** [pushed st st' key e]: between [st] and [st'] the entry [e] was appended
    to the bucket [key]. *)
Definition pushed (st st' : state) (key : string) (e : entry) : Prop :=
  push key e (st_buckets st) = Ok (st_buckets st').

Definition countEntries (b : buckets) : nat :=
  (List.length (green b) + List.length (red b) + List.length (blue b))%nat.

Definition isBucketKey (key : string) : Prop :=
  key = "green" \/ key = "red" \/ key = "blue".

Definition mapResult {A B : Type} (f : A -> B) (r : result A) : result B :=
  match r with
  | Ok a => Ok (f a)
  | Throw e => Throw e
  end.

(** An entry, a bucket set, a state and an output without what was computed
    from [Date.now()]. *)
Definition eraseMinutes (e : entry) : entry :=
  mkEntry (routeName e) (color e) (time e) (rawISO e) None (direct e) (delayed e).

Definition eraseBuckets (b : buckets) : buckets :=
  mkBuckets (map eraseMinutes (green b)) (map eraseMinutes (red b))
            (map eraseMinutes (blue b)).

Definition eraseState (st : state) : state :=
  mkState (eraseBuckets (st_buckets st)) (st_ticks st).

Definition eraseOutput (o : output) : output :=
  mkOutput (stopName o) (map eraseMinutes (out_green o))
           (map eraseMinutes (out_red o)) (map eraseMinutes (out_blue o)).

(** The shape of the input that the interface describes: every field the
    normalizer reads is text when it is there ([null] counts as missing),
    [routes], [rides] and [stopStatus] are arrays when they are there, and an
    element of [stopStatus] is [null], a record, or a one-key envelope
    around a record. *)
Definition timeFields : list string :=
  [ "scheduledDepartureTime"; "scheduledArrivalTime"; "scheduledAt";
    "expectedArrivalTime"; "expectedDepartureTime" ].

Definition textOrMissing (v : value) : bool :=
  match v with
  | VUndefined | VNull | VStr _ => true
  | _ => false
  end.

Definition isObject (v : value) : bool :=
  match v with
  | VObj _ => true
  | _ => false
  end.

Definition listOrMissing (elem : value -> bool) (v : value) : bool :=
  match v with
  | VUndefined | VNull => true
  | VArr elems => forallb elem elems
  | _ => false
  end.

Definition recordShaped (r : value) : bool :=
  isObject r && textOrMissing (prop r "stopId")
  && forallb (fun k => textOrMissing (prop r k)) timeFields.

Definition statusShaped (w : value) : bool :=
  match w with
  | VNull => true
  | VObj _ => recordShaped (unwrap w)
  | _ => false
  end.

Definition rideShaped (ride : value) : bool :=
  isObject ride
  && textOrMissing (prop ride "routeId")
  && textOrMissing (prop ride "routeServiceId")
  && textOrMissing (prop ride "mode")
  && textOrMissing (prop ride "type")
  && listOrMissing statusShaped (prop ride "stopStatus").

Definition routeShaped (r : value) : bool :=
  isObject r
  && textOrMissing (prop r "routeId")
  && textOrMissing (prop r "name")
  && textOrMissing (prop r "shortName").

Definition wellShaped (json : value) : bool :=
  isObject json
  && listOrMissing routeShaped (prop json "routes")
  && listOrMissing rideShaped (prop json "rides").

Section Vocabulary.
Context {host : Host}.

(** [matches id w]: the element [w] is scanned and the identifier of its
    record is [id] once lower-cased. *)
Definition matches (id : string) (w : value) : Prop :=
  truthy w = true /\ sidOf (unwrap w) = Ok id.



(** The time value that the raw timestamp of an entry denotes, if any. *)
Definition instantOf (e : entry) : option Z :=
  match newDate (rawISO e) with
  | Ok t => t
  | Throw _ => None
  end.

(** The entry carries its raw timestamp as text, as every entry described by
    the data model does. *)
Definition hasTextTimestamp (e : entry) : Prop :=
  exists s, rawISO e = VStr s.

Definition atOrAfter (now : Z) (e : entry) : bool :=
  match instantOf e with
  | Some x => now <=? x
  | None => false
  end.

Definition hasInstant (e : entry) : Prop := exists x, instantOf e = Some x.

(** Every raw timestamp of the array denotes an instant. *)
Definition validTimes (arr : list entry) : Prop := Forall hasInstant arr.

Definition notAfter (a b : entry) : Prop :=
  exists x y, instantOf a = Some x /\ instantOf b = Some y /\ x <= y.


(** Ascending by raw timestamp, equal timestamps allowed. *)
Definition ascending (arr : list entry) : Prop := StronglySorted notAfter arr.


(** Auxiliary conditions under which no step of the normalizer throws. *)
Definition startsWithDigit (s : string) : bool :=
  match s with
  | String c _ => (48 <=? nat_of_ascii c)%nat && (nat_of_ascii c <=? 57)%nat
  | EmptyString => false
  end.

Definition isText (v : value) : Prop := exists s, v = VStr s.

Definition isLabel (l : string) : Prop :=
  l = "Green" \/ l = "Red" \/ l = "Blue" \/ l = "".

Definition labelOk (v : value) : Prop :=
  v = VUndefined \/ exists l, v = VStr l /\ isLabel l.

(** What [considerRide] needs of a route to go through. *)
Definition routeSafe (routeInfo : value) : Prop :=
  textOrMissing (prop routeInfo "name") = true /\
  textOrMissing (prop routeInfo "shortName") = true /\
  labelOk (prop routeInfo "colorLabel").

Definition infoShaped (v : value) : Prop :=
  exists id name short label,
    v = VObj [("id", id); ("name", VStr name); ("shortName", VStr short);
              ("colorLabel", VStr label)] /\
    isText id /\ isLabel label.

Definition dirSafe (d : directory) : Prop :=
  (forall k v, assoc k (dir_own d) = Some v -> infoShaped v) /\
  (forall p, dir_proto d = Some p -> infoShaped p).

Definition nodeOk (n : value) : Prop := n = VNull \/ recordShaped n = true.

Definition stateText (st : state) : Prop :=
  Forall hasTextTimestamp (green (st_buckets st)) /\
  Forall hasTextTimestamp (red (st_buckets st)) /\
  Forall hasTextTimestamp (blue (st_buckets st)).

Section Derivation.
Variable rev : revision.
Variable originStopId : string.

(** [derivation ride routeInfo now key e]: the ride passes every test of
    [considerRide] and [e] is the entry built for the bucket [key], with
    the intermediate values of the source named. *)
Inductive derivation (ride routeInfo : value) (now : Z)
  : string -> entry -> Prop :=
| Derive (rName rShort : string) (originNode ninetySixNode : value)
    (scheduledTime liveTime : value) (reaches96 : bool) (colorKey : string)
    (liveDate : option Z) (time_ : string) (inMinutes_ : option Z)
    (delayed_ : bool) :
    truthy ride = true ->
    truthy routeInfo = true ->
    callToLowerCase (or_ (prop routeInfo "name") (VStr "")) = Ok rName ->
    callToLowerCase (or_ (prop routeInfo "shortName") (VStr "")) = Ok rShort ->
    excludedRoute rev rName rShort = false ->
    stopNodes originStopId ride = Ok (originNode, ninetySixNode) ->
    truthy originNode = true ->
    scheduledTimeOf originNode = Ok scheduledTime ->
    liveTimeOf originNode = Ok liveTime ->
    truthy liveTime = true ->
    reaches96Of liveTime ninetySixNode = Ok reaches96 ->
    colorKeyOf rev routeInfo = Ok colorKey ->
    newDate liveTime = Ok liveDate ->
    formatTime liveTime = Ok time_ ->
    minutesFromNow liveTime now = Ok inMinutes_ ->
    delayedOf liveDate scheduledTime = Ok delayed_ ->
    derivation ride routeInfo now colorKey
      (mkEntry (prop routeInfo "name") (displayColor rev routeInfo colorKey)
               time_ liveTime inMinutes_ reaches96 delayed_).

End Derivation.

End Vocabulary.

(* ================================================================= *)
(** ** A sample host and sample documents *)

(** A server running in UTC whose date parser knows the timestamps used
    below (their true time values) and nothing else. *)
Module Sample.

Definition dates : list (string * Z) :=
  [ ("2024-03-01T09:55:00Z", 1709286900000);
    ("2024-03-01T09:59:00Z", 1709287140000);
    ("2024-03-01T10:00:00Z", 1709287200000);
    ("2024-03-01T10:01:00Z", 1709287260000);
    ("2024-03-01T10:03:00Z", 1709287380000);
    ("2024-03-01T10:15:00Z", 1709288100000);
    ("3/1/2024, 10:00:00 AM", 1709287200000) ].

Fixpoint lookupDate (s : string) (table : list (string * Z)) : option Z :=
  match table with
  | [] => None
  | (k, t) :: rest => if (s =? k)%string then Some t else lookupDate s rest
  end.

(** 15:00 UTC on 1 March 2024 is 10:00 in New York. *)
Definition wallClock (instant : Z) : string :=
  if instant =? 1709305200000 then "3/1/2024, 10:00:00 AM" else "".

Definition host : Host :=
  {| toLowerCase := asciiLower;
     toLowerCase_ascii := fun s _ => eq_refl;
     Date_parse := fun s => lookupDate s dates;
     Date_parse_empty := eq_refl;
     getHours := fun t => (t / 3600000) mod 24;
     getMinutes := fun t => (t / 60000) mod 60;
     toLocaleString_en_US_New_York := wallClock |}.

Definition status (stopId : string) (fields : list (string * string)) : value :=
  VObj (("stopId", VStr stopId) :: map (fun '(k, v) => (k, VStr v)) fields).

Definition route (routeId name : string) : value :=
  VObj [("routeId", VStr routeId); ("name", VStr name)].

Definition ride (routeId : string) (statuses : list value) : value :=
  VObj [("routeId", VStr routeId); ("stopStatus", VArr statuses)].

Definition document (routes rides : list value) : value :=
  VObj [("routes", VArr routes); ("rides", VArr rides)].

(** The clock stands at 09:55. *)
Definition clock (_ : nat) : Z := 1709286900000.

Definition normalize (rev : revision) (json : value) : result output :=
  parseTripShotCommutePlanForOrigin (host := host) rev clock json
    EC_S_STOP_ID "EC S".

(** A record at EC S, scheduled 10:00 and expected 10:03, and one at 96th
    Street, scheduled 10:15, inside the one-key wrapper of the upstream
    format. *)
Definition originLate : value :=
  status EC_S_STOP_ID [("scheduledArrivalTime", "2024-03-01T10:00:00Z");
                       ("expectedArrivalTime", "2024-03-01T10:03:00Z")].

Definition originEarly : value :=
  status "ec00cccf-1599-454b-a90a-05f7fad06576"
    [("expectedArrivalTime", "2024-03-01T10:01:00Z")].

Definition destination : value :=
  VObj [("Scheduled",
         status NINETY_SIX_STOP_ID
           [("scheduledArrivalTime", "2024-03-01T10:15:00Z")])].

Definition lateRide : value := ride "r1" [originLate; destination].

(** The origin appears twice; the later record is [originLate]. *)
Definition twiceRide : value := ride "r1" [originEarly; originLate; destination].



Definition greenInfo : value :=
  VObj [("id", VStr "r1"); ("name", VStr "Green Loop");
        ("shortName", VStr "Green Loop"); ("colorLabel", VStr "Green")].

Definition routes : directory := mkDirectory [("r1", greenInfo)] None.

Definition lateEntry : entry :=
  mkEntry (VStr "Green Loop") (VStr "Green") "10:03 am"
          (VStr "2024-03-01T10:03:00Z") (Some 8) true true.

Definition st0 : state := mkState emptyBuckets 0%nat.
Definition st1 : state := mkState (mkBuckets [lateEntry] [] []) 1%nat.

(** Two rides of the green route with the same live time. *)
Definition twinDocument : value :=
  document [route "r1" "Green Loop"] [lateRide; lateRide].

Definition twinOutput : output :=
  mkOutput "EC S" [lateEntry; lateEntry] [] [].

(** A route whose names hold no colour word. *)
Definition crimsonDocument : value :=
  document [route "r2" "Crimson Express"] [ride "r2" [originLate]].

Definition crimsonEntry (displayed : string) : entry :=
  mkEntry (VStr "Crimson Express") (VStr displayed) "10:03 am"
          (VStr "2024-03-01T10:03:00Z") (Some 8) false true.

(** The scenarios of the specification. *)
Definition walkingRide : value :=
  VObj [("routeId", VStr "r1"); ("mode", VStr "Walking");
        ("stopStatus", VArr [originLate; destination])].

Definition manhattanvilleDocument : value :=
  document [route "r3" "Manhattanville Shuttle"] [ride "r3" [originLate]].

Definition onTimeOrigin : value :=
  status EC_S_STOP_ID [("scheduledArrivalTime", "2024-03-01T10:00:00Z");
                       ("expectedArrivalTime", "2024-03-01T10:01:00Z")].

Definition earlierDestination : value :=
  status NINETY_SIX_STOP_ID [("scheduledArrivalTime", "2024-03-01T09:55:00Z")].

Definition emptyOutput : output := mkOutput "EC S" [] [] [].


(** A document whose ride list holds [null]. *)
Definition nullRideDocument : value := VObj [("rides", VArr [VNull])].



Definition tripAt (iso : string) : entry :=
  mkEntry (VStr "Green Loop") (VStr "Green") "" (VStr iso) (Some 0) true false.

End Sample.


(* ================================================================= *)
(** ** Further vocabulary *)

(** The words whose presence in a route name excludes the route. *)
Definition excludedWord (rev : revision) (w : string) : Prop :=
  w = "manhattanville" \/ (rev = Rev14 /\ (w = "m'ville" \/ w = "mville")).

(** The object that [addRoute] stores for a route. *)
Definition routeRecord (id name shortName : value) (colorLabel : string) : value :=
  VObj [("id", id); ("name", name); ("shortName", shortName);
        ("colorLabel", VStr colorLabel)].



(** One of the two names holds the word, letter case aside. *)
Definition mentions (name shortName w : string) : bool :=
  includes (asciiLower name) w || includes (asciiLower shortName) w.

(** Green before red before blue, blue when no colour word is there. *)
Definition bucketOfNames (name shortName : string) : string :=
  if mentions name shortName "green" then "green"
  else if mentions name shortName "red" then "red"
  else "blue".

(** The twelve-hour clock text of hour [h] and minute [m]. *)
Definition hour12 (h : Z) : Z := if h mod 12 =? 0 then 12 else h mod 12.

Definition twoDigits (m : Z) : string :=
  if m <? 10 then ("0" ++ string_of_Z m)%string else string_of_Z m.

Definition clockText (h m : Z) : string :=
  (string_of_Z (hour12 h) ++ ":" ++ twoDigits m ++ " "
   ++ (if (h <? 12)%Z then "am" else "pm"))%string.

(** The raw timestamp of the entry is truthy and converts to a date, valid
    or not, without throwing. *)
Definition dateOk {host : Host} (e : entry) : Prop :=
  truthy (rawISO e) = true /\ exists t, newDate (rawISO e) = Ok t.

Definition bucketsAll (P : entry -> Prop) (b : buckets) : Prop :=
  Forall P (green b) /\ Forall P (red b) /\ Forall P (blue b).

(* ================================================================= *)
(** ** The shuttle endpoint *)

Definition TRIPSHOT_REGION_ID : string := "CA558DDC-D7F2-4B48-9CAC-DEEA1134F820".

(** Inside the [try] block of a handler a computation either gives a value
    or passes control to the [catch] block ([None]), by a thrown exception
    or a rejected promise alike. *)
Definition andThen {A B : Type} (m : option A) (k : A -> option B) : option B :=
  match m with
  | Some a => k a
  | None => None
  end.

Notation "x <~ m ;; k" := (andThen m (fun x => k))
  (at level 61, m at next level, right associativity).

Definition caught {A : Type} (r : result A) : option A :=
  match r with
  | Ok a => Some a
  | Throw _ => None
  end.

(** What [fetch] resolves to: the [ok] flag of the response and what its
    [json()] resolves to, [None] when the body is no JSON. *)
Record reply : Type := mkReply {
  reply_ok : bool;
  reply_json : option value
}.

Inductive responseBody : Type :=
| ErrorBody (message : string)
| ShuttleBody (ecS s120 : output).

Record response : Type := mkResponse {
  status : Z;
  body : responseBody
}.

Section Endpoint.
Context {host : Host}.

(** The calendar fields of a date in the server's zone and its ISO text,
    both for a valid time value, and the three coordinate pairs of the
    configuration, which are opaque to the program. *)
Variables getFullYear getMonth getDate : Z -> Z.
Variable toISOString : Z -> string.
Variables EC_S_LOCATION S120_LOCATION NINETY_SIX_LOCATION : value.

(** The four fields of [getNYCPayloadTime] (revision 15).  On an invalid
    date the calendar getters answer [NaN] but [toISOString] throws. *)
Definition getNYCPayloadTime (instant : Z) : option (Z * Z * Z * string) :=
  nowNYC <~ getNYCTime instant ;;
  Some (getFullYear nowNYC, getMonth nowNYC + 1, getDate nowNYC,
        toISOString nowNYC).

(** [buildTripShotPayload]; [instant] is the reading of the engine's clock.
    Revision 14 takes the fields from that reading, revision 15 from the
    New-York time. *)
Definition buildTripShotPayload (rev : revision) (instant : Z)
    (originName : string) (originLocation : value) (originStopId : string)
  : option value :=
  time <~
    match rev with
    | Rev14 => Some (getFullYear instant, getMonth instant + 1,
                     getDate instant, toISOString instant)
    | Rev15 => getNYCPayloadTime instant
    end ;;
  let '(year, month, day, departAt) := time in
  Some (VObj
    [ ("day", VObj [("year", VNum year); ("month", VNum month);
                    ("day", VNum day)]);
      ("startPoint", VObj [("location", originLocation);
                           ("name", VStr originName);
                           ("stop", VStr originStopId)]);
      ("endPoint", VObj [("location", NINETY_SIX_LOCATION);
                         ("name", VStr "96");
                         ("stop", VStr NINETY_SIX_STOP_ID)]);
      ("departAt", VStr departAt);
      ("arriveBy", VNull);
      ("directOnly", VBool false);
      ("forUserId", VNull);
      ("keepInferiors", VBool false);
      ("regionId", VStr TRIPSHOT_REGION_ID);
      ("requestImperial", VBool true);
      ("travelMode", VStr "Walking") ]).

(** The six filter calls of revision 15 on the two outputs; the [n]-th call
    reads the clock at [instant n]. *)
Definition filterOutput (instant : nat -> Z) (first : nat) (o : output)
  : option output :=
  g <~ caught (filterTripsAfterNYCNow (instant first) (out_green o)) ;;
  r <~ caught (filterTripsAfterNYCNow (instant (S first)) (out_red o)) ;;
  b <~ caught (filterTripsAfterNYCNow (instant (S (S first))) (out_blue o)) ;;
  Some (mkOutput (stopName o) g r b).

(** The [try] block of the handler of [GET /api/shuttle].  [upstream] is
    what [fetch] resolves to for a request body, [None] for a rejection;
    [instant n] is the [n]-th reading of the clock by [new Date()], and
    [clockEC], [clock120] are the readings of [Date.now()] inside the two
    normalizations. *)
Definition shuttleTry (rev : revision) (upstream : value -> option reply)
    (instant : nat -> Z) (clockEC clock120 : nat -> Z) : option response :=
  payloadEC <~ buildTripShotPayload rev (instant 0%nat) "EC S"
                 EC_S_LOCATION EC_S_STOP_ID ;;
  payload120 <~ buildTripShotPayload rev (instant 1%nat) "120 S"
                  S120_LOCATION S120_STOP_ID ;;
  respEC <~ upstream payloadEC ;;
  resp120 <~ upstream payload120 ;;
  if negb (reply_ok respEC) || negb (reply_ok resp120) then
    Some (mkResponse 500 (ErrorBody "TripShot request failed"))
  else
  dataEC <~ reply_json respEC ;;
  data120 <~ reply_json resp120 ;;
  parsedEC <~ caught (parseTripShotCommutePlanForOrigin rev clockEC dataEC
                        EC_S_STOP_ID "EC S") ;;
  parsed120 <~ caught (parseTripShotCommutePlanForOrigin rev clock120 data120
                         S120_STOP_ID "120 S") ;;
  match rev with
  | Rev14 => Some (mkResponse 200 (ShuttleBody parsedEC parsed120))
  | Rev15 =>
      filteredEC <~ filterOutput instant 2 parsedEC ;;
      filtered120 <~ filterOutput instant 5 parsed120 ;;
      Some (mkResponse 200 (ShuttleBody filteredEC filtered120))
  end.

(** The handler: the [try] block, and the [catch] block behind it. *)
Definition shuttleHandler (rev : revision) (upstream : value -> option reply)
    (instant : nat -> Z) (clockEC clock120 : nat -> Z) : response :=
  match shuttleTry rev upstream instant clockEC clock120 with
  | Some r => r
  | None => mkResponse 500 (ErrorBody "Shuttle API error")
  end.

End Endpoint.

(** The filter's test with the clock read at [instant]: the entry is at or
    after the New-York reading, and that reading is a valid date. *)
Definition keptAt {host : Host} (instant : Z) (t : entry) : bool :=
  match getNYCTime instant with
  | Some now => atOrAfter now t
  | None => false
  end.

Definition sizeWithin (n : nat) (o : output) : Prop :=
  (List.length (out_green o) <= n)%nat /\
  (List.length (out_red o) <= n)%nat /\
  (List.length (out_blue o) <= n)%nat.

(* ================================================================= *)
(** ** The subway endpoint *)

(** [v?.k]: [undefined] when [v] is [null] or [undefined]. *)
Definition optChain (v : value) (k : string) : value :=
  match v with
  | VUndefined | VNull => VUndefined
  | _ => prop v k
  end.

Record departure : Type := mkDeparture {
  dep_inMinutes : option Z;
  absolute : string
}.

(** An element of [byDest], and of [trains]. *)
Record train : Type := mkTrain {
  destination : value;
  route : value;
  departures : list departure
}.

Inductive subwayBody : Type :=
| SubwayError (message : string)
| SubwayBoard (stopName_ : value) (trains : list train).

Record subwayResponse : Type := mkSubwayResponse {
  sub_status : Z;
  sub_body : subwayBody
}.

(** The key is an array index: the decimal text, without leading zeros, of
    an integer below 2^32 - 1. *)
Definition arrayIndex (key : string) : option N :=
  match NilZero.uint_of_string key with
  | Some d =>
      let n := N.of_uint d in
      if ((NilZero.string_of_uint (N.to_uint n) =? key)%string
          && (n <? 4294967295)%N)%bool
      then Some n else None
  | None => None
  end.

Fixpoint insertIndexed {A : Type} (n : N) (x : A) (sorted : list (N * A))
  : list (N * A) :=
  match sorted with
  | [] => [(n, x)]
  | (m, y) :: rest =>
      if (n <? m)%N then (n, x) :: (m, y) :: rest
      else (m, y) :: insertIndexed n x rest
  end.

(** [Object.values(o)] for an object whose own properties were created in
    the order of the list: the properties whose key is an array index come
    first, by ascending index, then the others in creation order. *)
Definition objectValues {A : Type} (props : list (string * A)) : list A :=
  let indexed :=
    fold_left (fun acc p =>
                 match arrayIndex (fst p) with
                 | Some n => insertIndexed n (snd p) acc
                 | None => acc
                 end) props [] in
  let named :=
    filter (fun p => match arrayIndex (fst p) with
                     | Some _ => false
                     | None => true
                     end) props in
  map snd indexed ++ map snd named.

(** A stable sort by a numeric key, as [Array.prototype.sort] does it with
    the comparator [(a, b) => key(a) - key(b)]; a [NaN] difference counts
    as "equal". *)
Fixpoint insertBy {A : Type} (key : A -> option Z) (x : A) (sorted : list A)
  : list A :=
  match sorted with
  | [] => [x]
  | y :: rest =>
      match key y, key x with
      | Some a, Some b =>
          if 0 <? a - b then x :: y :: rest else y :: insertBy key x rest
      | _, _ => y :: insertBy key x rest
      end
  end.

Definition sortBy {A : Type} (key : A -> option Z) (arr : list A) : list A :=
  fold_left (fun sorted x => insertBy key x sorted) arr [].

(** [t.departures[0]?.inMinutes ?? 9999]. *)
Definition firstMinutes (t : train) : option Z :=
  match departures t with
  | d :: _ => dep_inMinutes d
  | [] => Some 9999
  end.

(** A name that a plain object answers without owning it. *)
Definition inheritedName (key : string) : bool :=
  (key =? "__proto__")%string || existsb (String.eqb key) objectPrototypeNames.

Fixpoint replaceAt {A : Type} (key : string) (x : A) (props : list (string * A))
  : list (string * A) :=
  match props with
  | [] => []
  | (k, y) :: rest =>
      if (key =? k)%string then (k, x) :: rest
      else (k, y) :: replaceAt key x rest
  end.

Fixpoint lookup {A : Type} (key : string) (props : list (string * A))
  : option A :=
  match props with
  | [] => None
  | (k, y) :: rest => if (key =? k)%string then Some y else lookup key rest
  end.

Section Subway.
Context {host : Host}.

(** The number that a numeric text denotes ([None] for [NaN] and the
    infinities), and the ISO text of a valid time value. *)
Variable stringToNumber : string -> option Z.
Variable toISOString : Z -> string.

(** ToNumber. *)
Definition toNumber (v : value) : result (option Z) :=
  match v with
  | VUndefined => Ok None
  | VNull => Ok (Some 0)
  | VBool b => Ok (Some (if b then 1 else 0))
  | VNum n => Ok (Some n)
  | VStr s => Ok (stringToNumber s)
  | VArr _ | VObj _ | VFun _ => s <- toStr v ;; Ok (stringToNumber s)
  end.

(** [new Date(t * 1000).toISOString()], which throws on an invalid date. *)
Definition isoOfSeconds (t : value) : option string :=
  n <~ caught (toNumber t) ;;
  seconds <~ n ;;
  tsMs <~ timeClip (seconds * 1000) ;;
  Some (toISOString tsMs).

(** One turn of [for (const st of data.stopTimes || [])]; the loop state is
    [byDest], its properties in creation order, and the number of readings
    of [Date.now()] taken. *)
Definition subwayStep (clock : nat -> Z)
    (state : list (string * train) * nat) (st : value)
  : option (list (string * train) * nat) :=
  let '(byDest, ticks) := state in
  trip <~ caught (get st "trip") ;;
  let dest := or_ (optChain (optChain trip "destination") "name")
                  (VStr "Unknown") in
  let route_ := or_ (optChain (optChain trip "route") "shortName") (VStr "") in
  let t :=
    or_ (optChain (prop st "departure") "time")
      (or_ (optChain (prop st "arrival") "time")
         (or_ (optChain (prop st "arrival") "predictedTime")
              (optChain (prop st "departure") "predictedTime"))) in
  if negb (truthy t) then Some state else
  iso <~ isoOfSeconds t ;;
  key <~ caught (toStr dest) ;;
  group <~
    match lookup key byDest with
    | Some g => Some (byDest, g)
    | None =>
        if inheritedName key then None
        else
          let g := mkTrain dest route_ [] in
          Some (byDest ++ [(key, g)], g)
    end ;;
  let '(byDest1, g) := group in
  inMinutes_ <~ caught (minutesFromNow (VStr iso) (clock ticks)) ;;
  absolute_ <~ caught (formatTime (VStr iso)) ;;
  let g' := mkTrain (destination g) (route g)
              (departures g ++ [mkDeparture inMinutes_ absolute_]) in
  Some (replaceAt key g' byDest1, S ticks).

Fixpoint forEach {A S : Type} (body : S -> A -> option S) (xs : list A) (s : S)
  : option S :=
  match xs with
  | [] => Some s
  | x :: xs' => s' <~ body s x ;; forEach body xs' s'
  end.

Fixpoint filterTrains (ts : list train) : option (list train) :=
  match ts with
  | [] => Some []
  | t :: rest =>
      d <~ caught (callToLowerCase (destination t)) ;;
      kept <~ filterTrains rest ;;
      Some (if includes d "south ferry" || includes d "van cortlandt"
            then t :: kept else kept)
  end.

(** The [try] block of the handler of [GET /api/subway]; [fetched] is what
    [fetch] resolves to, [None] for a rejection. *)
Definition subwayTry (fetched : option reply) (clock : nat -> Z)
  : option subwayResponse :=
  r <~ fetched ;;
  if negb (reply_ok r) then
    Some (mkSubwayResponse 500 (SubwayError "Transiter request failed"))
  else
  data <~ reply_json r ;;
  stopTimes0 <~ caught (get data "stopTimes") ;;
  stopTimes <~ caught (iterate (or_ stopTimes0 (VArr []))) ;;
  state <~ forEach (subwayStep clock) stopTimes ([], 0%nat) ;;
  let sorted := sortBy firstMinutes (objectValues (fst state)) in
  let trains :=
    map (fun t => mkTrain (destination t) (route t)
                    (firstn 3 (departures t))) sorted in
  trains <~ filterTrains trains ;;
  Some (mkSubwayResponse 200
          (SubwayBoard (or_ (prop data "name") (VStr "125th St")) trains)).

Definition subwayHandler (fetched : option reply) (clock : nat -> Z)
  : subwayResponse :=
  match subwayTry fetched clock with
  | Some r => r
  | None => mkSubwayResponse 500 (SubwayError "Subway API error")
  end.

End Subway.

(** The destination and the time a turn of the subway loop reads. *)
Definition destinationOf (trip : value) : value :=
  or_ (optChain (optChain trip "destination") "name") (VStr "Unknown").

Definition timeOf (st : value) : value :=
  or_ (optChain (prop st "departure") "time")
    (or_ (optChain (prop st "arrival") "time")
       (or_ (optChain (prop st "arrival") "predictedTime")
            (optChain (prop st "departure") "predictedTime"))).

Definition ownKeys (byDest : list (string * train)) : Prop :=
  Forall (fun k => inheritedName k = false) (map fst byDest).

(** The invariant of [byDest]: one property per key, each filed under the
    text of its destination, none without a departure. *)
Definition groupOk (p : string * train) : Prop :=
  toStr (destination (snd p)) = Ok (fst p) /\ departures (snd p) <> [].

Definition byDestOk (byDest : list (string * train)) : Prop :=
  NoDup (map fst byDest) /\ Forall groupOk byDest.

(** The destination is text that names South Ferry or Van Cortlandt. *)
Definition wantedDestination {host : Host} (t : train) : Prop :=
  exists s, destination t = VStr s /\
            (includes (toLowerCase s) "south ferry"
             || includes (toLowerCase s) "van cortlandt") = true.

Definition wantedB {host : Host} (t : train) : bool :=
  match destination t with
  | VStr s => includes (toLowerCase s) "south ferry"
              || includes (toLowerCase s) "van cortlandt"
  | _ => false
  end.

Definition hasKey {A : Type} (key : A -> option Z) (a : A) : Prop :=
  exists x, key a = Some x.

Definition keyNotAfter {A : Type} (key : A -> option Z) (a b : A) : Prop :=
  exists x y, key a = Some x /\ key b = Some y /\ x <= y.

(** The first departure of [a] is not later than that of [b]. *)
Definition firstNotAfter (a b : train) : Prop := keyNotAfter firstMinutes a b.

Definition cutTrain (t : train) : train :=
  mkTrain (destination t) (route t) (firstn 3 (departures t)).

Definition isIndexed {A : Type} (p : string * A) : bool :=
  match arrayIndex (fst p) with
  | Some _ => true
  | None => false
  end.

(** The minute count of the departure is a number, not negative. *)
Definition departureOk (d : departure) : Prop :=
  exists n, dep_inMinutes d = Some n /\ 0 <= n.

Definition byDestTimed (byDest : list (string * train)) : Prop :=
  Forall (fun p => Forall departureOk (departures (snd p))) byDest.


(* ================================================================= *)
(** ** Sample requests and feeds *)

Module Board.

(** The directory after three routes, the first two with the same
    identifier; the latest assignment stands first. *)
Definition routes : directory :=
  mkDirectory
    [("r2", routeRecord (VStr "r2") (VStr "Blue Express") (VStr "Blue Express")
              "Blue");
     ("r1", routeRecord (VStr "r1") (VStr "Red Line") (VStr "Red Line") "Red");
     ("r1", routeRecord (VStr "r1") (VStr "Green Loop") (VStr "Green Loop")
              "Green")]
    None.

Definition manhattanvilleInfo : value :=
  routeRecord (VStr "r3") (VStr "Manhattanville Shuttle")
    (VStr "Manhattanville Shuttle") "Blue".



(** The server's calendar on 1 March 2024. *)
Definition getFullYear (_ : Z) : Z := 2024.
Definition getMonth (_ : Z) : Z := 2.
Definition getDate (_ : Z) : Z := 1.
Definition toISOString (_ : Z) : string := "2024-03-01T10:03:00Z".
Definition location : value := VObj [("lg", VNum 0); ("lt", VNum 0)].

(** The upstream answers every request with the same document. *)
Definition upstream (_ : value) : option reply :=
  Some (mkReply true (Some Sample.twinDocument)).

(** 15:00 UTC, 10:00 in New York. *)
Definition instant (_ : nat) : Z := 1709305200000.

Definition shuttle (rev : revision) (instant : nat -> Z) : response :=
  shuttleHandler (host := Sample.host) getFullYear getMonth getDate toISOString
    location location location rev upstream instant Sample.clock Sample.clock.

(** A subway feed. *)
Definition stopTime (dest : string) (seconds : Z) : value :=
  VObj [("trip", VObj [("destination", VObj [("name", VStr dest)]);
                       ("route", VObj [("shortName", VStr "1")])]);
        ("departure", VObj [("time", VNum seconds)])].

Definition feed (stopTimes : list value) : value :=
  VObj [("name", VStr "125 St"); ("stopTimes", VArr stopTimes)].

Definition fetched (stopTimes : list value) : option reply :=
  Some (mkReply true (Some (feed stopTimes))).

Definition stringToNumber (_ : string) : option Z := None.

Definition stopTimes : list value :=
  [stopTime "South Ferry" 1709287380; stopTime "Van Cortlandt Park-242 St" 1709287380;
   stopTime "South Ferry" 1709287380; stopTime "Times Sq-42 St" 1709287380].

Definition departureAt : departure := mkDeparture (Some 8) "10:03 am".

Definition trains : list train :=
  [mkTrain (VStr "South Ferry") (VStr "1") [departureAt; departureAt];
   mkTrain (VStr "Van Cortlandt Park-242 St") (VStr "1") [departureAt]].

(** An engine whose ISO text is the letter T followed by the time value in
    decimal, and whose parser reads that text back. *)
Definition print (ms : Z) : string :=
  String "T" (NilZero.string_of_int (Z.to_int ms)).

Definition parse (s : string) : option Z :=
  match s with
  | String c rest =>
      if Ascii.eqb c "T" then option_map Z.of_int (NilZero.int_of_string rest)
      else None
  | EmptyString => None
  end.

Definition decimalHost : Host :=
  {| toLowerCase := asciiLower;
     toLowerCase_ascii := fun s _ => eq_refl;
     Date_parse := parse;
     Date_parse_empty := eq_refl;
     getHours := fun t => (t / 3600000) mod 24;
     getMinutes := fun t => (t / 60000) mod 60;
     toLocaleString_en_US_New_York := fun _ => "" |}.

Definition laterFirst : list value :=
  [stopTime "Van Cortlandt Park-242 St" 1200; stopTime "South Ferry" 600].

Definition sortedTrains : list train :=
  [mkTrain (VStr "South Ferry") (VStr "1") [mkDeparture (Some 10) "12:10 am"];
   mkTrain (VStr "Van Cortlandt Park-242 St") (VStr "1")
     [mkDeparture (Some 20) "12:20 am"]].

End Board.

(* ================================================================= *)
(** ** Evaluation steps *)

Lemma bind_Ok {A B : Type} (m : result A) (k : A -> result B) (b : B) :
  bind m k = Ok b -> exists a, m = Ok a /\ k a = Ok b.
Proof.
  destruct m as [a | e]; simpl; intros H; [eauto | discriminate].
Qed.

(** Splits a successful sequence at its first step. *)
Ltac step H :=
  let a := fresh "x" in
  let E := fresh "E" in
  apply bind_Ok in H; destruct H as (a & E & H).

Lemma forOf_app {A S : Type} (body : S -> A -> result S) (xs ys : list A) (s : S) :
  forOf body (xs ++ ys) s = (s' <- forOf body xs s ;; forOf body ys s').
Proof.
  revert s; induction xs as [| x xs IH]; intros s; simpl; [reflexivity |].
  destruct (body s x); simpl; auto.
Qed.

(* ================================================================= *)
(** ** Pushing into the buckets *)

Lemma push_inv (key : string) (e : entry) (b b' : buckets) :
  push key e b = Ok b' ->
  (key = "green" /\ b' = mkBuckets (green b ++ [e]) (red b) (blue b)) \/
  (key = "red" /\ b' = mkBuckets (green b) (red b ++ [e]) (blue b)) \/
  (key = "blue" /\ b' = mkBuckets (green b) (red b) (blue b ++ [e])).
Proof.
  unfold push; intros H.
  destruct (String.eqb_spec key "green"); [left; split; congruence |].
  destruct (String.eqb_spec key "red"); [right; left; split; congruence |].
  destruct (String.eqb_spec key "blue"); [right; right; split; congruence |].
  discriminate.
Qed.

Lemma push_key (key : string) (e : entry) (b b' : buckets) :
  push key e b = Ok b' -> isBucketKey key.
Proof.
  intros H; apply push_inv in H; unfold isBucketKey; tauto.
Qed.

Lemma push_count (key : string) (e : entry) (b b' : buckets) :
  push key e b = Ok b' -> countEntries b' = S (countEntries b).
Proof.
  intros H; apply push_inv in H.
  destruct H as [[_ ->] | [[_ ->] | [_ ->]]]; unfold countEntries; simpl;
    rewrite length_app; simpl; lia.
Qed.

Lemma snoc_neq {A : Type} (l : list A) (x : A) : l ++ [x] <> l.
Proof.
  intros H; apply (f_equal (@List.length A)) in H.
  rewrite length_app in H; simpl in H; lia.
Qed.

Lemma snoc_inj {A : Type} (l : list A) (x y : A) : l ++ [x] = l ++ [y] -> x = y.
Proof.
  intros H; apply app_inv_head in H; congruence.
Qed.

(** One state change is the push of one entry into one bucket at most. *)
Lemma push_unique (b b' : buckets) (k1 k2 : string) (e1 e2 : entry) :
  push k1 e1 b = Ok b' -> push k2 e2 b = Ok b' -> k1 = k2 /\ e1 = e2.
Proof.
  intros H1 H2; apply push_inv in H1; apply push_inv in H2.
  destruct H1 as [[-> ->] | [[-> ->] | [-> ->]]];
    destruct H2 as [[-> H] | [[-> H] | [-> H]]];
    inversion H; subst;
    repeat match goal with
      | X : ?l ++ [_] = ?l |- _ => exfalso; exact (snoc_neq _ _ X)
      | X : ?l = ?l ++ [_] |- _ => exfalso; symmetry in X; exact (snoc_neq _ _ X)
      | X : ?l ++ [_] = ?l ++ [_] |- _ => apply snoc_inj in X; subst
      end; auto.
Qed.

(* ================================================================= *)
(** ** What one call of [considerRide] does *)

Section ConsiderRide.
Context {host : Host}.
Variable rev : revision.
Variable clock : nat -> Z.
Variable originStopId : string.

Lemma considerRide_inv (ride routeInfo : value) (st st' : state) :
  considerRide rev clock originStopId ride routeInfo st = Ok st' ->
  st' = st \/
  exists key e,
    derivation rev originStopId ride routeInfo (clock (st_ticks st)) key e /\
    pushed st st' key e /\ st_ticks st' = S (st_ticks st).
Proof.
  unfold considerRide; intros H.
  destruct (truthy ride) eqn:Hride; simpl in H; [| left; congruence].
  destruct (truthy routeInfo) eqn:Hinfo; simpl in H; [| left; congruence].
  step H. step H.
  destruct (excludedRoute rev x x0) eqn:Hex; [left; congruence |].
  step H. destruct x1 as [originNode ninetySixNode].
  destruct (truthy originNode) eqn:Ho; simpl in H; [| left; congruence].
  step H. step H.
  destruct (truthy x2) eqn:Hl; simpl in H; [| left; congruence].
  do 7 step H.
  injection H as <-.
  right; eexists _, _; split; [| split; [unfold pushed; simpl; eassumption | reflexivity]].
  econstructor; eassumption.
Qed.

Lemma considerRide_count (ride routeInfo : value) (st st' : state) :
  considerRide rev clock originStopId ride routeInfo st = Ok st' ->
  st' = st \/
  countEntries (st_buckets st') = S (countEntries (st_buckets st)).
Proof.
  intros H; apply considerRide_inv in H.
  destruct H as [-> | (key & e & _ & Hp & _)]; [now left | right].
  exact (push_count _ _ _ _ Hp).
Qed.

(** The entry a call pushed is the one the derivation builds. *)
Lemma considerRide_pushed (ride routeInfo : value) (st st' : state)
    (key : string) (e : entry) :
  considerRide rev clock originStopId ride routeInfo st = Ok st' ->
  pushed st st' key e ->
  derivation rev originStopId ride routeInfo (clock (st_ticks st)) key e.
Proof.
  intros H Hp; apply considerRide_inv in H.
  destruct H as [-> | (key' & e' & Hd & Hp' & _)].
  - apply push_count in Hp; lia.
  - destruct (push_unique _ _ _ _ _ _ Hp Hp') as [-> ->]; exact Hd.
Qed.

End ConsiderRide.

(* ================================================================= *)
(** ** The scan of the stop-status sequence *)

Section Scan.
Context {host : Host}.
Variables oL nL : string.

Lemma scanStep_inv (nodes nodes' : value * value) (w : value) :
  scanStep oL nL nodes w = Ok nodes' ->
  (truthy w = false /\ nodes' = nodes) \/
  exists sid,
    truthy w = true /\ sidOf (unwrap w) = Ok sid /\
    fst nodes' = (if (sid =? oL)%string then unwrap w else fst nodes) /\
    snd nodes' = (if (sid =? nL)%string then unwrap w else snd nodes).
Proof.
  unfold scanStep; intros H.
  destruct (truthy w) eqn:Hw; simpl in H; [| left; split; congruence].
  step H; injection H as <-.
  right; exists x; simpl; auto.
Qed.

(** A node that the scan changed is a record of the sequence carrying the
    identifier looked for. *)
Lemma scan_origin_source (ws : list value) (nodes nodes' : value * value) :
  forOf (scanStep oL nL) ws nodes = Ok nodes' ->
  fst nodes' = fst nodes \/
  exists w, In w ws /\ matches oL w /\ fst nodes' = unwrap w.
Proof.
  revert nodes; induction ws as [| w ws IH]; intros nodes H; simpl in H.
  - injection H as <-; now left.
  - step H. apply IH in H. apply scanStep_inv in E.
    destruct H as [H | (w' & Hin & Hm & Hw')].
    + destruct E as [[_ ->] | (sid & Hw & Hsid & Ho & _)]; [now left |].
      rewrite H, Ho.
      destruct (String.eqb_spec sid oL) as [-> |]; [right | now left].
      exists w; simpl; unfold matches; auto.
    + right; exists w'; simpl; auto.
Qed.

Lemma scan_ninetySix_source (ws : list value) (nodes nodes' : value * value) :
  forOf (scanStep oL nL) ws nodes = Ok nodes' ->
  snd nodes' = snd nodes \/
  exists w, In w ws /\ matches nL w /\ snd nodes' = unwrap w.
Proof.
  revert nodes; induction ws as [| w ws IH]; intros nodes H; simpl in H.
  - injection H as <-; now left.
  - step H. apply IH in H. apply scanStep_inv in E.
    destruct H as [H | (w' & Hin & Hm & Hw')].
    + destruct E as [[_ ->] | (sid & Hw & Hsid & _ & Hn)]; [now left |].
      rewrite H, Hn.
      destruct (String.eqb_spec sid nL) as [-> |]; [right | now left].
      exists w; simpl; unfold matches; auto.
    + right; exists w'; simpl; auto.
Qed.

(** Elements that do not match leave the node as it is. *)
Lemma scan_origin_unmatched (ws : list value) (nodes nodes' : value * value) :
  forOf (scanStep oL nL) ws nodes = Ok nodes' ->
  (forall w, In w ws -> ~ matches oL w) ->
  fst nodes' = fst nodes.
Proof.
  intros H Hno; apply scan_origin_source in H.
  destruct H as [H | (w & Hin & Hm & _)]; [exact H |].
  exfalso; exact (Hno w Hin Hm).
Qed.

Lemma scan_ninetySix_unmatched (ws : list value) (nodes nodes' : value * value) :
  forOf (scanStep oL nL) ws nodes = Ok nodes' ->
  (forall w, In w ws -> ~ matches nL w) ->
  snd nodes' = snd nodes.
Proof.
  intros H Hno; apply scan_ninetySix_source in H.
  destruct H as [H | (w & Hin & Hm & _)]; [exact H |].
  exfalso; exact (Hno w Hin Hm).
Qed.

(** The last match is the one that stays. *)
Lemma scan_last_match (before after : list value) (w : value)
    (nodes nodes' : value * value) :
  forOf (scanStep oL nL) (before ++ w :: after) nodes = Ok nodes' ->
  (matches oL w -> (forall w', In w' after -> ~ matches oL w') ->
   fst nodes' = unwrap w) /\
  (matches nL w -> (forall w', In w' after -> ~ matches nL w') ->
   snd nodes' = unwrap w).
Proof.
  rewrite forOf_app; intros H; step H; simpl in H; step H.
  apply scanStep_inv in E0.
  split; intros [Hw Hsid] Hafter.
  - rewrite (scan_origin_unmatched _ _ _ H Hafter).
    destruct E0 as [[Hf _] | (sid & _ & Hsid' & Ho & _)]; [congruence |].
    rewrite Ho; replace sid with oL by congruence.
    now rewrite String.eqb_refl.
  - rewrite (scan_ninetySix_unmatched _ _ _ H Hafter).
    destruct E0 as [[Hf _] | (sid & _ & Hsid' & _ & Hn)]; [congruence |].
    rewrite Hn; replace sid with nL by congruence.
    now rewrite String.eqb_refl.
Qed.

End Scan.

(* ================================================================= *)
(** ** Properties of the entry of a qualifying ride *)

Section Entries.
Context {host : Host}.
Variable rev : revision.
Variable clock : nat -> Z.
Variable originStopId : string.

Lemma delayedOf_spec (liveTime : value) (liveDate : option Z)
    (scheduledTime : value) (d : bool) :
  newDate liveTime = Ok liveDate ->
  delayedOf liveDate scheduledTime = Ok d ->
  (d = true <->
   truthy scheduledTime = true /\
   exists live sched,
     newDate liveTime = Ok (Some live) /\
     newDate scheduledTime = Ok (Some sched) /\
     60000 < live - sched).
Proof.
  unfold delayedOf; intros Hl H; rewrite Hl.
  destruct (truthy scheduledTime) eqn:Hs.
  - destruct (newDate scheduledTime) as [sched |] eqn:Hsched; simpl in H;
      [| discriminate].
    injection H as <-.
    destruct liveDate as [l |], sched as [s |]; split;
      try discriminate;
      try (intros [_ (l' & s' & Hl' & Hs' & _)]; discriminate).
    + intros Hd; apply Z.ltb_lt in Hd; split; [reflexivity |].
      exists l, s; auto.
    + intros [_ (l' & s' & Hl' & Hs' & Hlt)].
      injection Hl' as <-; injection Hs' as <-; now apply Z.ltb_lt.
  - injection H as <-; split; [discriminate | intros [? _]; discriminate].
Qed.

(** C1.  The entry of a qualifying ride is flagged [delayed] exactly when
    the origin record has a scheduled time and the live time value exceeds
    the scheduled one by more than 60000 ms, one minute; in particular a
    ride at most one minute late, or early, is not flagged. *)
Theorem delayed_iff_over_one_minute_late
    (ride routeInfo : value) (st st' : state) (key : string) (e : entry) :
  considerRide rev clock originStopId ride routeInfo st = Ok st' ->
  pushed st st' key e ->
  exists originNode ninetySixNode scheduledTime,
    stopNodes originStopId ride = Ok (originNode, ninetySixNode) /\
    scheduledTimeOf originNode = Ok scheduledTime /\
    liveTimeOf originNode = Ok (rawISO e) /\
    (delayed e = true <->
     truthy scheduledTime = true /\
     exists live sched,
       newDate (rawISO e) = Ok (Some live) /\
       newDate scheduledTime = Ok (Some sched) /\
       60000 < live - sched) /\
    (forall live sched,
       newDate (rawISO e) = Ok (Some live) ->
       newDate scheduledTime = Ok (Some sched) ->
       live - sched <= 60000 -> delayed e = false).
Proof.
  intros H Hp.
  destruct (considerRide_pushed _ _ _ _ _ _ _ _ _ H Hp).
  exists originNode, ninetySixNode, scheduledTime; simpl.
  match goal with
  | Hl : newDate liveTime = Ok liveDate,
    Hd : delayedOf liveDate scheduledTime = Ok delayed_ |- _ =>
      pose proof (delayedOf_spec _ _ _ _ Hl Hd) as Hiff
  end.
  repeat split; auto; try (apply Hiff; assumption).
  intros live sched Hl Hs Hle.
  destruct delayed_; [| reflexivity].
  destruct Hiff as [Hiff _].
  destruct (Hiff eq_refl) as (_ & l & s & Hl' & Hs' & Hlt).
  assert (l = live) by congruence; assert (s = sched) by congruence; lia.
Qed.

Lemma stopNodes_inv (ride originNode ninetySixNode : value) :
  stopNodes originStopId ride = Ok (originNode, ninetySixNode) ->
  exists statuses,
    iterate (or_ (prop ride "stopStatus") (VArr [])) = Ok statuses /\
    forOf (scanStep (originIdLower originStopId) ninetySixIdLower)
      statuses (VNull, VNull) = Ok (originNode, ninetySixNode).
Proof.
  unfold stopNodes; intros H; step H; eauto.
Qed.



(** The display colour in revision 14 ([src/server.js]): the route's label
    when it has one, else the bucket key with a capital initial. *)
Lemma displayColor_rev14
    (ride routeInfo : value) (st st' : state) (key : string) (e : entry) :
  considerRide Rev14 clock originStopId ride routeInfo st = Ok st' ->
  pushed st st' key e ->
  isBucketKey key /\
  color e = (if truthy (prop routeInfo "colorLabel")
             then prop routeInfo "colorLabel"
             else VStr (capitalize key)) /\
  (key = "blue" -> truthy (prop routeInfo "colorLabel") = false ->
   color e = VStr "Blue").
Proof.
  intros H Hp.
  pose proof (push_key _ _ _ _ Hp) as Hk.
  destruct (considerRide_pushed _ _ _ _ _ _ _ _ _ H Hp); simpl.
  split; [assumption |]. unfold or_. split; [reflexivity |].
  intros -> ->; reflexivity.
Qed.

Lemma rideStep_inv (routeInfoById : directory) (st st' : state) (ride : value) :
  rideStep rev clock originStopId routeInfoById st ride = Ok st' ->
  st' = st \/
  exists routeInfo,
    isWalkingRide ride = Ok false /\
    considerRide rev clock originStopId ride routeInfo st = Ok st'.
Proof.
  unfold rideStep; intros H; step H.
  destruct x; [left; congruence | right].
  step H; step H; eauto.
Qed.

Lemma toLowerCase_empty : toLowerCase "" = "".
Proof. exact (toLowerCase_ascii "" eq_refl). Qed.

(** Both origins of the configuration have a non-empty lower-case form on
    every host. *)
Lemma configured_origins_not_empty :
  toLowerCase EC_S_STOP_ID <> "" /\ toLowerCase S120_STOP_ID <> "".
Proof.
  split; rewrite toLowerCase_ascii by reflexivity; discriminate.
Qed.


(** A record that matches a non-empty identifier carries a string [stopId]
    whose lower-case form is that identifier. *)
Lemma sidOf_inv (inner : value) (id : string) :
  sidOf inner = Ok id -> id <> "" ->
  exists s, prop inner "stopId" = VStr s /\ toLowerCase s = id.
Proof.
  unfold sidOf; intros H Hid; step H.
  assert (x = prop inner "stopId") as ->
    by (unfold get in E; destruct inner; congruence).
  unfold or_ in H; destruct (truthy (prop inner "stopId")) eqn:Ht.
  - destruct (prop inner "stopId") as [| | | | s | | |]; simpl in H;
      try discriminate.
    exists s; split; [reflexivity | congruence].
  - simpl in H; rewrite toLowerCase_empty in H; congruence.
Qed.

(** C7.  One turn of the ride loop leaves the buckets as they are or appends
    exactly one entry to exactly one bucket; and it appends one only if the
    ride's stop-status sequence has an element whose record carries a
    [stopId] equal to the requested origin identifier up to letter case. *)
Theorem ride_contributes_at_most_one_entry_at_origin
    (routeInfoById : directory) (st st' : state) (ride : value) :
  toLowerCase originStopId <> "" ->
  rideStep rev clock originStopId routeInfoById st ride = Ok st' ->
  (st' = st \/
   countEntries (st_buckets st') = S (countEntries (st_buckets st)) /\
   exists key e, pushed st st' key e) /\
  (st' <> st ->
   exists statuses w s,
     iterate (or_ (prop ride "stopStatus") (VArr [])) = Ok statuses /\
     In w statuses /\ truthy w = true /\
     prop (unwrap w) "stopId" = VStr s /\
     toLowerCase s = toLowerCase originStopId).
Proof.
  intros Hid H.
  destruct (rideStep_inv _ _ _ _ H) as [-> | (routeInfo & _ & Hc)];
    [split; [now left | congruence] |].
  destruct (considerRide_inv _ _ _ _ _ _ _ Hc) as [-> | (key & e & Hd & Hp & _)];
    [split; [now left | congruence] |].
  split.
  - right; split; [exact (push_count _ _ _ _ Hp) | eauto].
  - intros _. destruct Hd.
    match goal with
    | Hs : stopNodes _ _ = Ok _ |- _ =>
        destruct (stopNodes_inv _ _ _ Hs) as (statuses & Hit & Hscan)
    end.
    destruct (scan_origin_source _ _ _ _ _ Hscan) as [Hn | (w & Hin & [Hw Hsid] & _)].
    + simpl in Hn; subst originNode; discriminate.
    + destruct (sidOf_inv _ _ Hsid Hid) as (s & Hs & Hlow).
      exists statuses, w, s; auto.
Qed.

(** Over a whole document: no more entries than rides. *)
Lemma rides_count (routeInfoById : directory) (rides : list value)
    (st st' : state) :
  forOf (rideStep rev clock originStopId routeInfoById) rides st = Ok st' ->
  (countEntries (st_buckets st')
   <= countEntries (st_buckets st) + List.length rides)%nat.
Proof.
  revert st; induction rides as [| ride rides IH]; intros st H; simpl in H.
  - injection H as <-; simpl; lia.
  - step H. apply IH in H. simpl.
    destruct (rideStep_inv _ _ _ _ E) as [-> | (routeInfo & _ & Hc)]; [lia |].
    destruct (considerRide_count _ _ _ _ _ _ _ Hc) as [-> | Hcount]; lia.
Qed.

Lemma fillBuckets_count (json : value) (b : buckets) :
  fillBuckets rev clock json originStopId = Ok b ->
  exists rides,
    iterate (or_ (prop json "rides") (VArr [])) = Ok rides /\
    (countEntries b <= List.length rides)%nat.
Proof.
  unfold fillBuckets; intros H; do 5 step H. injection H as <-.
  exists x2; split; [assumption |].
  exact (rides_count _ _ _ _ E3).
Qed.

(** C9.  When the sequence has several records for the origin (or for the
    destination), the scan ends on the last of them: the entry's live time
    is derived from the last origin record, its [direct] flag from the last
    destination record. *)
Theorem last_matching_record_is_used
    (ride routeInfo : value) (st st' : state) (key : string) (e : entry)
    (before after : list value) (w : value) :
  considerRide rev clock originStopId ride routeInfo st = Ok st' ->
  pushed st st' key e ->
  iterate (or_ (prop ride "stopStatus") (VArr [])) = Ok (before ++ w :: after) ->
  (matches (originIdLower originStopId) w ->
   (forall w', In w' after -> ~ matches (originIdLower originStopId) w') ->
   (exists n, stopNodes originStopId ride = Ok (unwrap w, n)) /\
   liveTimeOf (unwrap w) = Ok (rawISO e)) /\
  (matches ninetySixIdLower w ->
   (forall w', In w' after -> ~ matches ninetySixIdLower w') ->
   (exists o, stopNodes originStopId ride = Ok (o, unwrap w)) /\
   reaches96Of (rawISO e) (unwrap w) = Ok (direct e)).
Proof.
  intros H Hp Hit.
  destruct (considerRide_pushed _ _ _ _ _ _ _ _ _ H Hp); simpl.
  match goal with
  | Hs : stopNodes _ _ = Ok _ |- _ =>
      pose proof Hs as Hnodes;
      destruct (stopNodes_inv _ _ _ Hs) as (statuses & Hit' & Hscan)
  end.
  rewrite Hit in Hit'; injection Hit' as <-.
  destruct (scan_last_match _ _ _ _ _ _ _ Hscan) as [Ho Hn]; simpl in Ho, Hn.
  split; intros Hm Hafter.
  - rewrite <- (Ho Hm Hafter); split; [eauto | assumption].
  - rewrite <- (Hn Hm Hafter); split; [eauto | assumption].
Qed.





End Entries.

(* ================================================================= *)
(** ** The future-trip filter *)

Section Filter.
Context {host : Host}.


Lemma filterM_pure {A : Type} (f : A -> result bool) (p : A -> bool)
    (xs : list A) :
  Forall (fun x => f x = Ok (p x)) xs -> filterM f xs = Ok (filter p xs).
Proof.
  induction 1 as [| x xs Hx _ IH]; simpl; [reflexivity |].
  rewrite Hx, IH; simpl. destruct (p x); reflexivity.
Qed.


End Filter.

(* ================================================================= *)
(** ** The clock *)

Section Clock.
Context {host : Host}.
Variable rev : revision.
Variable originStopId : string.

Lemma forOf_ext {A S : Type} (body1 body2 : S -> A -> result S) (xs : list A) (s : S) :
  (forall s x, body1 s x = body2 s x) ->
  forOf body1 xs s = forOf body2 xs s.
Proof.
  intros Hext; revert s; induction xs as [| x xs IH]; intros s; simpl;
    [reflexivity |].
  rewrite Hext; destruct (body2 s x); simpl; auto.
Qed.

(** Two runs that are in step: same outcome up to a relation on states. *)
Lemma forOf_related {A S T : Type} (f : S -> T)
    (body1 body2 : S -> A -> result S) (xs : list A) (s1 s2 : S) :
  (forall s1 s2 x, f s1 = f s2 ->
     mapResult f (body1 s1 x) = mapResult f (body2 s2 x)) ->
  f s1 = f s2 ->
  mapResult f (forOf body1 xs s1) = mapResult f (forOf body2 xs s2).
Proof.
  intros Hstep; revert s1 s2; induction xs as [| x xs IH]; intros s1 s2 Hs;
    simpl; [congruence |].
  pose proof (Hstep s1 s2 x Hs) as Hx.
  destruct (body1 s1 x) as [t1 |], (body2 s2 x) as [t2 |]; simpl in *;
    try congruence.
  apply IH; congruence.
Qed.

Lemma push_erase (key : string) (e1 e2 : entry) (b1 b2 : buckets) :
  eraseMinutes e1 = eraseMinutes e2 -> eraseBuckets b1 = eraseBuckets b2 ->
  mapResult eraseBuckets (push key e1 b1) = mapResult eraseBuckets (push key e2 b2).
Proof.
  intros He Hb; unfold push. unfold eraseBuckets in Hb; injection Hb as Hg Hr Hbl.
  destruct (key =? "green")%string;
    [| destruct (key =? "red")%string; [| destruct (key =? "blue")%string]];
    simpl; unfold eraseBuckets; simpl; rewrite ?map_app; simpl; congruence.
Qed.

Lemma considerRide_erase (clock1 clock2 : nat -> Z) (ride routeInfo : value)
    (st1 st2 : state) :
  eraseState st1 = eraseState st2 ->
  mapResult eraseState (considerRide rev clock1 originStopId ride routeInfo st1) =
  mapResult eraseState (considerRide rev clock2 originStopId ride routeInfo st2).
Proof.
  intros Hs; unfold considerRide.
  destruct (negb (truthy ride) || negb (truthy routeInfo))%bool;
    [simpl; congruence |].
  repeat match goal with
    | |- context [bind ?m _] =>
        lazymatch m with
        | minutesFromNow _ _ => fail
        | push _ _ _ => fail
        | _ => destruct m; cbn [bind mapResult]; [| reflexivity]
        end
    | |- context [if ?c then _ else _] =>
        destruct c; cbn [bind mapResult]; [congruence |]
    | a : (_ * _)%type |- _ => destruct a
    end.
  unfold minutesFromNow.
  repeat match goal with
    | |- context [bind ?m _] =>
        lazymatch m with
        | push _ _ _ => fail
        | _ => destruct m; cbn [bind mapResult]; [| reflexivity]
        end
    end.
  pose proof (f_equal st_buckets Hs) as Hb.
  pose proof (f_equal st_ticks Hs) as Ht. simpl in Hb, Ht.
  match goal with
  | |- mapResult _ (bind (push ?k ?e1 ?b1) _) =
       mapResult _ (bind (push ?k ?e2 ?b2) _) =>
      pose proof (push_erase k e1 e2 b1 b2 eq_refl Hb) as Hp;
      destruct (push k e1 b1), (push k e2 b2); simpl in *; try congruence
  end.
  unfold eraseState; simpl; congruence.
Qed.

Lemma rideStep_erase (clock1 clock2 : nat -> Z) (routeInfoById : directory)
    (st1 st2 : state) (ride : value) :
  eraseState st1 = eraseState st2 ->
  mapResult eraseState (rideStep rev clock1 originStopId routeInfoById st1 ride) =
  mapResult eraseState (rideStep rev clock2 originStopId routeInfoById st2 ride).
Proof.
  intros Hs; unfold rideStep.
  destruct (isWalkingRide ride) as [[|] |]; cbn [bind mapResult];
    [congruence | | reflexivity].
  destruct (toStr (prop ride "routeId")); cbn [bind mapResult]; [| reflexivity].
  match goal with
  | |- context [bind ?m _] => destruct m; cbn [bind mapResult]; [| reflexivity]
  end.
  now apply considerRide_erase.
Qed.

Lemma fillBuckets_erase (clock1 clock2 : nat -> Z) (json : value) :
  mapResult eraseBuckets (fillBuckets rev clock1 json originStopId) =
  mapResult eraseBuckets (fillBuckets rev clock2 json originStopId).
Proof.
  unfold fillBuckets.
  repeat match goal with
    | |- context [bind ?m _] =>
        lazymatch m with
        | forOf (rideStep _ _ _ _) _ _ => fail
        | _ => destruct m; cbn [bind mapResult]; [| reflexivity]
        end
    end.
  match goal with
  | |- mapResult _ (bind (forOf (rideStep _ _ _ ?d) ?xs ?s) _) = _ =>
      pose proof (forOf_related eraseState
                    (rideStep rev clock1 originStopId d)
                    (rideStep rev clock2 originStopId d) xs s s
                    (fun s1 s2 x => rideStep_erase clock1 clock2 d s1 s2 x)
                    eq_refl) as Hrel
  end.
  match goal with
  | |- mapResult _ (bind ?m1 _) = mapResult _ (bind ?m2 _) =>
      destruct m1 as [t1 |], m2 as [t2 |]; simpl in *; try congruence
  end.
  assert (eraseState t1 = eraseState t2) as Hst by congruence.
  f_equal; exact (f_equal st_buckets Hst).
Qed.

Lemma insertSorted_erase (x : entry) (sorted : list entry) :
  insertSorted (eraseMinutes x) (map eraseMinutes sorted) =
  mapResult (map eraseMinutes) (insertSorted x sorted).
Proof.
  induction sorted as [| y rest IH]; simpl; [reflexivity |].
  change (compareEntries (eraseMinutes y) (eraseMinutes x))
    with (compareEntries y x).
  destruct (compareEntries y x) as [[d |] |]; cbn [bind mapResult];
    [| | reflexivity].
  - destruct (0 <? d); [reflexivity |].
    rewrite IH; destruct (insertSorted x rest); reflexivity.
  - rewrite IH; destruct (insertSorted x rest); reflexivity.
Qed.

Lemma sortEntries_erase (arr : list entry) :
  sortEntries (map eraseMinutes arr) =
  mapResult (map eraseMinutes) (sortEntries arr).
Proof.
  unfold sortEntries.
  change (@nil entry) with (map eraseMinutes []) at 1.
  generalize (@nil entry) as acc.
  induction arr as [| x arr IH]; intros acc; simpl; [reflexivity |].
  rewrite insertSorted_erase.
  destruct (insertSorted x acc); cbn [bind mapResult]; [apply IH | reflexivity].
Qed.

Lemma sortAndTake3_erase (arr : list entry) :
  sortAndTake3 (map eraseMinutes arr) =
  mapResult (map eraseMinutes) (sortAndTake3 arr).
Proof.
  unfold sortAndTake3; rewrite sortEntries_erase.
  destruct (sortEntries arr); cbn [bind mapResult]; [| reflexivity].
  now rewrite firstn_map.
Qed.

Lemma sortAndTake3_related (arr1 arr2 : list entry) :
  map eraseMinutes arr1 = map eraseMinutes arr2 ->
  mapResult (map eraseMinutes) (sortAndTake3 arr1) =
  mapResult (map eraseMinutes) (sortAndTake3 arr2).
Proof.
  intros H; rewrite <- !sortAndTake3_erase; congruence.
Qed.

(** C8.  The normalizer is a function of the document, the origin, the label
    and the readings of [Date.now()]: with the same readings the outcome is
    the same.  And the readings reach nothing but [inMinutes]: under two
    arbitrary clocks the two runs fail together or return outputs that are
    equal once [inMinutes] is blanked. *)
Theorem normalization_depends_on_clock_only_through_inMinutes
    (clock1 clock2 : nat -> Z) (json : value) (originLabel : string) :
  ((forall n, clock1 n = clock2 n) ->
   parseTripShotCommutePlanForOrigin rev clock1 json originStopId originLabel =
   parseTripShotCommutePlanForOrigin rev clock2 json originStopId originLabel) /\
  mapResult eraseOutput
    (parseTripShotCommutePlanForOrigin rev clock1 json originStopId originLabel) =
  mapResult eraseOutput
    (parseTripShotCommutePlanForOrigin rev clock2 json originStopId originLabel).
Proof.
  split.
  - intros Hclock; unfold parseTripShotCommutePlanForOrigin, fillBuckets.
    repeat match goal with
      | |- context [bind ?m _] =>
          lazymatch m with
          | forOf (rideStep _ _ _ _) _ _ => fail
          | _ => destruct m; cbn [bind]; [| reflexivity]
          end
      end.
    match goal with
    | |- context [forOf (rideStep _ clock1 _ ?d) ?xs ?s] =>
        rewrite (forOf_ext (rideStep rev clock1 originStopId d)
                           (rideStep rev clock2 originStopId d) xs s)
    end; [reflexivity |].
    intros s ride; unfold rideStep, considerRide.
    now rewrite Hclock.
  - unfold parseTripShotCommutePlanForOrigin.
    pose proof (fillBuckets_erase clock1 clock2 json) as Hfill.
    destruct (fillBuckets rev clock1 json originStopId) as [b1 |],
             (fillBuckets rev clock2 json originStopId) as [b2 |];
      simpl in Hfill; try congruence; cbn [bind].
    assert (eraseBuckets b1 = eraseBuckets b2) as Hb by congruence.
    unfold eraseBuckets in Hb; injection Hb as Hg Hr Hbl.
    pose proof (sortAndTake3_related _ _ Hg) as Hg'.
    pose proof (sortAndTake3_related _ _ Hr) as Hr'.
    pose proof (sortAndTake3_related _ _ Hbl) as Hbl'.
    destruct (sortAndTake3 (green b1)), (sortAndTake3 (green b2));
      simpl in Hg'; cbn [bind mapResult]; try congruence.
    destruct (sortAndTake3 (red b1)), (sortAndTake3 (red b2));
      simpl in Hr'; cbn [bind mapResult]; try congruence.
    destruct (sortAndTake3 (blue b1)), (sortAndTake3 (blue b2));
      simpl in Hbl'; cbn [bind mapResult]; try congruence.
    unfold eraseOutput; simpl; congruence.
Qed.

End Clock.

(* ================================================================= *)
(** ** Order and size of the returned buckets *)

Section Order.
Context {host : Host}.

Lemma instantOf_newDate (e : entry) (x : Z) :
  instantOf e = Some x -> newDate (rawISO e) = Ok (Some x).
Proof.
  unfold instantOf; destruct (newDate (rawISO e)); congruence.
Qed.

Lemma compareEntries_valid (a b : entry) (x y : Z) :
  instantOf a = Some x -> instantOf b = Some y ->
  compareEntries a b = Ok (Some (x - y)).
Proof.
  intros Ha Hb; unfold compareEntries.
  now rewrite (instantOf_newDate _ _ Ha), (instantOf_newDate _ _ Hb).
Qed.

Lemma insertSorted_Forall (P : entry -> Prop) (x : entry) (sorted out : list entry) :
  insertSorted x sorted = Ok out -> P x -> Forall P sorted -> Forall P out.
Proof.
  revert out; induction sorted as [| y rest IH]; intros out H Hx Hs; simpl in H.
  - injection H as <-; auto.
  - step H. inversion Hs; subst.
    assert (forall r, insertSorted x rest = Ok r -> Forall P (y :: r)) as Hrec
      by (intros r Hr; constructor; [assumption | now apply IH]).
    destruct x0 as [d |].
    + destruct (0 <? d).
      * injection H as <-; auto.
      * step H; injection H as <-; auto.
    + step H; injection H as <-; auto.
Qed.

Lemma notAfter_trans (a b c : entry) : notAfter a b -> notAfter b c -> notAfter a c.
Proof.
  intros (x & y & Hx & Hy & Hxy) (y' & z & Hy' & Hz & Hyz).
  exists x, z; repeat split; auto.
  assert (y' = y) by congruence; lia.
Qed.

Lemma insertSorted_ascending (x : entry) (sorted : list entry) :
  hasInstant x -> validTimes sorted -> ascending sorted ->
  exists out, insertSorted x sorted = Ok out /\ ascending out.
Proof.
  intros [t Ht]; induction sorted as [| y rest IH]; intros Hv Hs; simpl.
  - eexists; split; [reflexivity | repeat constructor].
  - inversion Hv as [| ? ? [ty Hty] Hv']; subst.
    apply StronglySorted_inv in Hs; destruct Hs as [Hs Hy].
    rewrite (compareEntries_valid _ _ _ _ Hty Ht); cbn [bind].
    destruct (Z.ltb_spec 0 (ty - t)) as [Hlt | Hge].
    + eexists; split; [reflexivity |].
      assert (notAfter x y) as Hxy by (exists t, ty; repeat split; auto; lia).
      constructor; [constructor; assumption |].
      constructor; [assumption |].
      eapply Forall_impl; [| exact Hy].
      intros z Hz; exact (notAfter_trans _ _ _ Hxy Hz).
    + destruct (IH Hv' Hs) as (out & Hout & Hasc).
      rewrite Hout; cbn [bind]; eexists; split; [reflexivity |].
      constructor; [assumption |].
      apply (insertSorted_Forall _ _ _ _ Hout); [| assumption].
      exists ty, t; repeat split; auto; lia.
Qed.

Lemma sortEntries_ascending (arr : list entry) :
  validTimes arr -> exists sorted, sortEntries arr = Ok sorted /\ ascending sorted.
Proof.
  unfold sortEntries.
  assert (validTimes [] /\ ascending []) as Hacc
    by (split; constructor).
  revert Hacc; generalize (@nil entry) as acc.
  induction arr as [| x arr IH]; intros acc [Hv Hs] Harr; simpl.
  - eauto.
  - inversion Harr; subst.
    destruct (insertSorted_ascending x acc) as (out & Hout & Hasc); auto.
    rewrite Hout; cbn [bind]; apply IH; [split |]; auto.
    apply (insertSorted_Forall _ _ _ _ Hout); assumption.
Qed.

Lemma firstn_Forall {A : Type} (P : A -> Prop) (n : nat) (l : list A) :
  Forall P l -> Forall P (firstn n l).
Proof.
  intros H; revert n; induction H; intros [| n]; simpl; auto.
Qed.

Lemma firstn_StronglySorted {A : Type} (R : A -> A -> Prop) (n : nat) (l : list A) :
  StronglySorted R l -> StronglySorted R (firstn n l).
Proof.
  intros H; revert n; induction H; intros [| n]; simpl; try constructor; auto.
  now apply firstn_Forall.
Qed.

Lemma sortAndTake3_spec (arr out : list entry) :
  sortAndTake3 arr = Ok out ->
  (List.length out <= 3)%nat /\ (validTimes arr -> ascending out).
Proof.
  unfold sortAndTake3; intros H; step H; injection H as <-.
  split; [exact (firstn_le_length 3 x) |].
  intros Hv; destruct (sortEntries_ascending arr Hv) as (sorted & Hs & Hasc).
  assert (x = sorted) by congruence; subst.
  exact (firstn_StronglySorted _ 3 _ Hasc).
Qed.


End Order.

(* ================================================================= *)
(** ** Well-shaped documents *)

Section Shaped.
Context {host : Host}.

Lemma textOrMissing_inv (v : value) :
  textOrMissing v = true -> v = VUndefined \/ v = VNull \/ isText v.
Proof.
  destruct v; simpl; intros H; try discriminate; auto.
  right; right; eexists; reflexivity.
Qed.

Lemma or_text (a b : value) :
  textOrMissing a = true -> isText b -> isText (or_ a b).
Proof.
  intros Ha Hb; unfold or_.
  destruct (textOrMissing_inv a Ha) as [-> | [-> | [s ->]]]; simpl; auto.
  destruct (negb (s =? "")%string); [eexists; reflexivity | assumption].
Qed.

Lemma or_textOrMissing (a b : value) :
  textOrMissing a = true -> textOrMissing b = true ->
  textOrMissing (or_ a b) = true.
Proof.
  intros Ha Hb; unfold or_; destruct (truthy a); assumption.
Qed.

Lemma truthy_text (v : value) :
  textOrMissing v = true -> truthy v = true -> isText v.
Proof.
  intros Hv Ht; destruct (textOrMissing_inv v Hv) as [-> | [-> | H]];
    try discriminate; assumption.
Qed.

Lemma toStr_text (v : value) :
  textOrMissing v = true -> exists s, toStr v = Ok s.
Proof.
  intros H; destruct (textOrMissing_inv v H) as [-> | [-> | [s ->]]];
    simpl; eauto.
Qed.

Lemma regexTestI_text (word : string) (v : value) :
  textOrMissing v = true -> exists b, regexTestI word v = Ok b.
Proof.
  intros H; unfold regexTestI.
  destruct (toStr_text v H) as (s & ->); simpl; eauto.
Qed.

Lemma callToLowerCase_text (v : value) :
  isText v -> exists s, callToLowerCase v = Ok s.
Proof. intros [s ->]; simpl; eauto. Qed.

Lemma newDate_text (v : value) :
  isText v -> exists t, newDate v = Ok t.
Proof. intros [s ->]; simpl; eauto. Qed.

Lemma colorLabelOf_text (name shortName : value) :
  textOrMissing name = true -> textOrMissing shortName = true ->
  exists l, colorLabelOf name shortName = Ok l /\ isLabel l.
Proof.
  intros Hn Hs; unfold colorLabelOf, isLabel.
  destruct (regexTestI_text "green" name Hn) as (g1 & ->).
  destruct (regexTestI_text "green" shortName Hs) as (g2 & ->).
  destruct (regexTestI_text "red" name Hn) as (r1 & ->).
  destruct (regexTestI_text "red" shortName Hs) as (r2 & ->).
  destruct (regexTestI_text "blue" name Hn) as (b1 & ->).
  destruct (regexTestI_text "blue" shortName Hs) as (b2 & ->).
  destruct g1, g2, r1, r2, b1, b2; simpl; eauto 6.
Qed.

Lemma string_of_nat_digit (n : nat) : startsWithDigit (string_of_nat n) = true.
Proof.
  unfold string_of_nat; destruct (Nat.to_uint n); reflexivity.
Qed.

(** A key that is not a numeral is no index of an array or a string. *)
Lemma atKey_name {A : Type} (k : string) (i : nat) (xs : list A) :
  startsWithDigit k = false -> atKey k i xs = None.
Proof.
  intros Hk; revert i; induction xs as [| x xs IH]; intros i; simpl;
    [reflexivity |].
  destruct (String.eqb_spec k (string_of_nat i)) as [-> |]; [| apply IH].
  rewrite string_of_nat_digit in Hk; discriminate.
Qed.

Lemma prop_text_name (s k : string) :
  startsWithDigit k = false -> prop (VStr s) k = VUndefined.
Proof.
  intros Hk; simpl; now rewrite atKey_name.
Qed.

Lemma routeSafe_text (v : value) : isText v -> routeSafe v.
Proof.
  intros [s ->]; unfold routeSafe, labelOk.
  rewrite !prop_text_name by reflexivity; simpl; auto.
Qed.

Lemma routeSafe_info (v : value) : infoShaped v -> routeSafe v.
Proof.
  intros (id & name & short & label & -> & _ & Hl).
  unfold routeSafe, labelOk; simpl; repeat split; eauto.
Qed.

Lemma routeSafe_member (k : string) : routeSafe (objectPrototypeMember k).
Proof.
  unfold objectPrototypeMember, routeSafe, labelOk.
  destruct (existsb (String.eqb k) objectPrototypeNames); simpl; auto.
Qed.

Lemma assoc_info (k : string) (p v : value) (props : list (string * value)) :
  infoShaped p -> p = VObj props -> assoc k props = Some v -> isText v.
Proof.
  intros (id & name & short & label & -> & Hid & _) Hp H.
  injection Hp as <-; simpl in H.
  repeat match type of H with
    | (if ?c then _ else _) = _ => destruct c; [injection H as <- |]
    end; try discriminate; try assumption; eexists; reflexivity.
Qed.

Lemma dirGet_safe (d : directory) (k : string) :
  dirSafe d -> routeSafe (dirGet d k).
Proof.
  intros [Hown Hproto]; unfold dirGet.
  destruct (assoc k (dir_own d)) as [v |] eqn:Hk;
    [apply routeSafe_info; eauto |].
  destruct (k =? "__proto__")%string.
  - destruct (dir_proto d) as [p |];
      [apply routeSafe_info; auto |].
    unfold routeSafe, labelOk; simpl; auto.
  - destruct (dir_proto d) as [[| | | | | | props |] |] eqn:Hp;
      try apply routeSafe_member.
    destruct (assoc k props) as [v |] eqn:Hv; [| apply routeSafe_member].
    apply routeSafe_text.
    exact (assoc_info k _ v props (Hproto _ eq_refl) eq_refl Hv).
Qed.

Lemma dirSet_safe (d : directory) (k : string) (info : value) :
  dirSafe d -> infoShaped info -> dirSafe (dirSet k info d).
Proof.
  intros [Hown Hproto] Hi; unfold dirSet.
  destruct (k =? "__proto__")%string; split; simpl; auto.
  - intros p Hp; injection Hp as <-; assumption.
  - intros k' v. destruct (k' =? k)%string; [| apply Hown].
    intros H; injection H as <-; assumption.
Qed.

Lemma routeShaped_inv (r : value) :
  routeShaped r = true ->
  isObject r = true /\
  textOrMissing (prop r "routeId") = true /\
  textOrMissing (prop r "name") = true /\
  textOrMissing (prop r "shortName") = true.
Proof.
  unfold routeShaped; intros H.
  repeat (apply andb_prop in H; destruct H as [H ?]); auto.
Qed.

Lemma get_object (v : value) (k : string) :
  isObject v = true -> get v k = Ok (prop v k).
Proof. destruct v; simpl; intros H; (discriminate || reflexivity). Qed.

Lemma addRoute_ok (d : directory) (r : value) :
  routeShaped r = true -> dirSafe d ->
  exists d', addRoute d r = Ok d' /\ dirSafe d'.
Proof.
  intros Hr Hd; apply routeShaped_inv in Hr.
  destruct Hr as (Ho & Hid & Hn & Hs); unfold addRoute.
  rewrite (get_object _ _ Ho); cbn [bind].
  destruct (truthy (prop r "routeId")) eqn:Ht; simpl; [| eauto].
  assert (isText (or_ (prop r "name") (or_ (prop r "shortName") (VStr "Shuttle"))))
    as [name Hname]
    by (apply or_text; [assumption |];
        apply or_text; [assumption | eexists; reflexivity]).
  rewrite Hname.
  assert (isText (or_ (prop r "shortName") (VStr name))) as [short Hshort]
    by (apply or_text; [assumption | eexists; reflexivity]).
  rewrite Hshort.
  destruct (colorLabelOf_text (VStr name) (VStr short) eq_refl eq_refl)
    as (l & -> & Hl); cbn [bind].
  destruct (truthy_text _ Hid Ht) as [id Hidv]; rewrite Hidv; simpl.
  eexists; split; [reflexivity |].
  apply dirSet_safe; [assumption |].
  exists (VStr id), name, short, l; repeat split; auto.
  eexists; reflexivity.
Qed.

Lemma recordShaped_inv (r : value) :
  recordShaped r = true ->
  isObject r = true /\ textOrMissing (prop r "stopId") = true /\
  forall k, In k timeFields -> textOrMissing (prop r k) = true.
Proof.
  unfold recordShaped; intros H.
  apply andb_prop in H; destruct H as [H Hf].
  apply andb_prop in H; destruct H as [Ho Hs].
  rewrite forallb_forall in Hf; auto.
Qed.

Lemma scanStep_ok (oL nL : string) (nodes : value * value) (w : value) :
  statusShaped w = true -> nodeOk (fst nodes) -> nodeOk (snd nodes) ->
  exists nodes', scanStep oL nL nodes w = Ok nodes' /\
                 nodeOk (fst nodes') /\ nodeOk (snd nodes').
Proof.
  intros Hw Ho Hn; unfold scanStep.
  destruct w; try discriminate; simpl truthy; cbn [negb]; [eauto |].
  simpl in Hw; destruct (recordShaped_inv _ Hw) as (Hobj & Hsid & _).
  unfold sidOf; rewrite (get_object _ _ Hobj); cbn [bind].
  destruct (callToLowerCase_text (or_ (prop (unwrap (VObj props)) "stopId") (VStr "")))
    as (sid & ->); [apply or_text; [assumption | eexists; reflexivity] |].
  cbn [bind]; eexists; split; [reflexivity |]; simpl.
  split; [destruct (sid =? oL)%string | destruct (sid =? nL)%string];
    auto; right; assumption.
Qed.

Lemma scan_ok (oL nL : string) (ws : list value) (nodes : value * value) :
  forallb statusShaped ws = true -> nodeOk (fst nodes) -> nodeOk (snd nodes) ->
  exists nodes', forOf (scanStep oL nL) ws nodes = Ok nodes' /\
                 nodeOk (fst nodes') /\ nodeOk (snd nodes').
Proof.
  revert nodes; induction ws as [| w ws IH]; intros nodes Hws Ho Hn; simpl.
  - eauto.
  - simpl in Hws; apply andb_prop in Hws; destruct Hws as [Hw Hws].
    destruct (scanStep_ok oL nL nodes w Hw Ho Hn) as (nodes1 & -> & Ho1 & Hn1).
    cbn [bind]; now apply IH.
Qed.

Lemma rideShaped_inv (ride : value) :
  rideShaped ride = true ->
  isObject ride = true /\
  textOrMissing (prop ride "routeId") = true /\
  textOrMissing (prop ride "routeServiceId") = true /\
  textOrMissing (prop ride "mode") = true /\
  textOrMissing (prop ride "type") = true /\
  listOrMissing statusShaped (prop ride "stopStatus") = true.
Proof.
  unfold rideShaped; intros H.
  repeat (apply andb_prop in H; destruct H as [H ?]); auto 10.
Qed.

Lemma iterate_listOrMissing (elem : value -> bool) (v : value) :
  listOrMissing elem v = true ->
  exists xs, iterate (or_ v (VArr [])) = Ok xs /\ forallb elem xs = true.
Proof.
  destruct v; simpl; intros H; try discriminate; eauto.
Qed.

Lemma stopNodes_ok (originStopId : string) (ride : value) :
  rideShaped ride = true ->
  exists originNode ninetySixNode,
    stopNodes originStopId ride = Ok (originNode, ninetySixNode) /\
    nodeOk originNode /\ nodeOk ninetySixNode.
Proof.
  intros Hr; apply rideShaped_inv in Hr.
  destruct Hr as (_ & _ & _ & _ & _ & Hs); unfold stopNodes.
  destruct (iterate_listOrMissing _ _ Hs) as (ws & -> & Hws); cbn [bind].
  destruct (scan_ok (originIdLower originStopId) ninetySixIdLower ws
              (VNull, VNull) Hws) as ([o n] & Hscan & Ho & Hn);
    [left; reflexivity | left; reflexivity |].
  exists o, n; auto.
Qed.

Lemma firstOf_text (node : value) (ks : list string) :
  recordShaped node = true -> (forall k, In k ks -> In k timeFields) ->
  exists v, firstOf node ks = Ok v /\ textOrMissing v = true.
Proof.
  intros Hn; destruct (recordShaped_inv _ Hn) as (Ho & _ & Hf).
  induction ks as [| k ks IH]; intros Hks; simpl; [eauto |].
  assert (textOrMissing (prop node k) = true) as Hk
    by (apply Hf, Hks; now left).
  destruct ks as [| k' ks']; rewrite (get_object _ _ Ho); cbn [bind]; [eauto |].
  destruct (truthy (prop node k)); [eauto |].
  apply IH; intros k0 Hin; apply Hks; now right.
Qed.

Ltac timeField := intros ? Hin; unfold timeFields; simpl in *; tauto.

Lemma scheduledTimeOf_text (node : value) :
  recordShaped node = true ->
  exists v, scheduledTimeOf node = Ok v /\ textOrMissing v = true.
Proof.
  intros Hn; apply firstOf_text; [assumption | timeField].
Qed.

Lemma liveTimeOf_text (node : value) :
  recordShaped node = true ->
  exists v, liveTimeOf node = Ok v /\ textOrMissing v = true.
Proof.
  intros Hn; unfold liveTimeOf.
  destruct (scheduledTimeOf_text node Hn) as (s & -> & Hs); cbn [bind].
  destruct (firstOf_text node ["expectedArrivalTime"; "expectedDepartureTime"] Hn)
    as (e & -> & He); [timeField |].
  cbn [bind]; eexists; split; [reflexivity |].
  now apply or_textOrMissing.
Qed.

Lemma ninetySixTimeOf_text (node : value) :
  recordShaped node = true ->
  exists v, ninetySixTimeOf node = Ok v /\ textOrMissing v = true.
Proof.
  intros Hn; apply firstOf_text; [assumption | timeField].
Qed.

Lemma reaches96Of_ok (liveTime ninetySixNode : value) :
  isText liveTime -> nodeOk ninetySixNode ->
  exists r, reaches96Of liveTime ninetySixNode = Ok r.
Proof.
  intros Hl [-> | Hn]; unfold reaches96Of; simpl; [eauto |].
  destruct (truthy ninetySixNode); [| eauto].
  destruct (ninetySixTimeOf_text _ Hn) as (t & -> & Ht); cbn [bind].
  destruct (truthy t) eqn:Htt; [| eauto].
  destruct (newDate_text _ Hl) as (a & ->).
  destruct (newDate_text _ (truthy_text _ Ht Htt)) as (b & ->).
  cbn [bind]; eauto.
Qed.

Lemma delayedOf_ok (liveDate : option Z) (scheduledTime : value) :
  textOrMissing scheduledTime = true ->
  exists d, delayedOf liveDate scheduledTime = Ok d.
Proof.
  intros Hs; unfold delayedOf.
  destruct (truthy scheduledTime) eqn:Ht; [| eauto].
  destruct (newDate_text _ (truthy_text _ Hs Ht)) as (s & ->); cbn [bind]; eauto.
Qed.

Lemma colorKeyOf_ok (rev : revision) (routeInfo : value) :
  routeSafe routeInfo ->
  exists key, colorKeyOf rev routeInfo = Ok key /\ isBucketKey key.
Proof.
  intros (Hn & Hs & Hl); unfold colorKeyOf, isBucketKey.
  assert (truthy (prop routeInfo "colorLabel") = true ->
          exists key, callToLowerCase (prop routeInfo "colorLabel") = Ok key /\
                      (key = "green" \/ key = "red" \/ key = "blue")) as Hlabel.
  { intros Ht; destruct Hl as [Hu | (l & Hv & Hl)]; rewrite ?Hu, ?Hv in *;
      [discriminate |].
    simpl; eexists; split; [reflexivity |].
    destruct Hl as [-> | [-> | [-> | ->]]]; try discriminate;
      rewrite toLowerCase_ascii by reflexivity; simpl; auto. }
  destruct rev.
  - destruct (truthy (prop routeInfo "colorLabel")) eqn:Ht.
    + destruct (Hlabel eq_refl) as (key & -> & Hk); cbn [bind].
      destruct Hk as [-> | [-> | ->]]; simpl; eauto.
    + destruct (regexTestI_text "green" _ Hn) as (g1 & ->).
      destruct (regexTestI_text "green" _ Hs) as (g2 & ->).
      destruct (regexTestI_text "red" _ Hn) as (r1 & ->).
      destruct (regexTestI_text "red" _ Hs) as (r2 & ->).
      destruct (regexTestI_text "blue" _ Hn) as (b1 & ->).
      destruct (regexTestI_text "blue" _ Hs) as (b2 & ->).
      destruct g1, g2, r1, r2, b1, b2; simpl; eauto.
  - destruct (truthy (prop routeInfo "colorLabel")) eqn:Ht; [auto | eauto].
Qed.

Lemma push_ok (key : string) (e : entry) (b : buckets) :
  isBucketKey key -> exists b', push key e b = Ok b'.
Proof.
  intros [-> | [-> | ->]]; unfold push; simpl; eauto.
Qed.

Lemma push_text (key : string) (e : entry) (st : state) (b' : buckets) (n : nat) :
  push key e (st_buckets st) = Ok b' -> hasTextTimestamp e -> stateText st ->
  stateText (mkState b' n).
Proof.
  intros Hp He (Hg & Hr & Hb); apply push_inv in Hp; unfold stateText.
  destruct Hp as [[_ ->] | [[_ ->] | [_ ->]]]; simpl; repeat split; auto;
    apply Forall_app; auto.
Qed.

Lemma considerRide_ok (rev : revision) (clock : nat -> Z) (originStopId : string)
    (ride routeInfo : value) (st : state) :
  rideShaped ride = true -> routeSafe routeInfo ->
  exists st', considerRide rev clock originStopId ride routeInfo st = Ok st' /\
              (stateText st -> stateText st').
Proof.
  intros Hride Hsafe; unfold considerRide.
  destruct (negb (truthy ride) || negb (truthy routeInfo))%bool; [eauto |].
  destruct Hsafe as (Hn & Hs & Hl).
  destruct (callToLowerCase_text (or_ (prop routeInfo "name") (VStr "")))
    as (rName & ->); [apply or_text; [assumption | eexists; reflexivity] |].
  destruct (callToLowerCase_text (or_ (prop routeInfo "shortName") (VStr "")))
    as (rShort & ->); [apply or_text; [assumption | eexists; reflexivity] |].
  cbn [bind].
  destruct (excludedRoute rev rName rShort); [eauto |].
  destruct (stopNodes_ok originStopId ride Hride) as (o & n & -> & Ho & Hn96).
  cbn [bind].
  destruct (truthy o) eqn:Hto; cbn [negb]; [| eauto].
  destruct Ho as [-> | Ho]; [discriminate |].
  destruct (scheduledTimeOf_text o Ho) as (sched & -> & Hsched).
  destruct (liveTimeOf_text o Ho) as (live & -> & Hlive).
  cbn [bind].
  destruct (truthy live) eqn:Htl; cbn [negb]; [| eauto].
  pose proof (truthy_text _ Hlive Htl) as Htext.
  destruct (reaches96Of_ok live n Htext Hn96) as (r & ->).
  destruct (colorKeyOf_ok rev routeInfo (conj Hn (conj Hs Hl))) as (key & -> & Hkey).
  unfold formatTime, minutesFromNow.
  destruct (newDate_text live Htext) as (t & ->).
  cbn [bind].
  destruct (delayedOf_ok t sched Hsched) as (d & ->).
  cbn [bind].
  match goal with
  | |- context [push key ?e (st_buckets st)] =>
      destruct (push_ok key e (st_buckets st) Hkey) as (b' & Hp); rewrite Hp
  end.
  cbn [bind]; eexists; split; [reflexivity |].
  intros Hst; apply (push_text _ _ _ _ _ Hp); [| assumption].
  destruct Htext as [s ->]; eexists; reflexivity.
Qed.

Lemma isWalkingRide_ok (ride : value) :
  rideShaped ride = true -> exists b, isWalkingRide ride = Ok b.
Proof.
  intros Hr; apply rideShaped_inv in Hr.
  destruct Hr as (Ho & _ & _ & Hm & Ht & _); unfold isWalkingRide.
  rewrite (get_object _ _ Ho); cbn [bind].
  assert (isText (or_ (prop ride "mode") (or_ (prop ride "type") (VStr ""))))
    as [m ->]
    by (apply or_text; [assumption |];
        apply or_text; [assumption | eexists; reflexivity]).
  simpl; eauto.
Qed.

Lemma rideStep_ok (rev : revision) (clock : nat -> Z) (originStopId : string)
    (routeInfoById : directory) (st : state) (ride : value) :
  rideShaped ride = true -> dirSafe routeInfoById ->
  exists st',
    rideStep rev clock originStopId routeInfoById st ride = Ok st' /\
    (stateText st -> stateText st').
Proof.
  intros Hride Hd; unfold rideStep.
  destruct (isWalkingRide_ok ride Hride) as ([|] & ->); cbn [bind]; [eauto |].
  pose proof (rideShaped_inv _ Hride) as (_ & Hid & Hsid & _).
  destruct (toStr_text _ Hid) as (k1 & ->); cbn [bind].
  destruct (truthy (dirGet routeInfoById k1)); cbn [bind].
  - apply considerRide_ok; [assumption | now apply dirGet_safe].
  - destruct (toStr_text _ Hsid) as (k2 & ->); cbn [bind].
    apply considerRide_ok; [assumption |]. unfold or_.
    destruct (truthy (dirGet routeInfoById k2)); [now apply dirGet_safe |].
    unfold routeSafe, labelOk, placeholderRoute; simpl.
    repeat split; auto. right; exists ""; unfold isLabel; auto.
Qed.

Lemma routes_ok (routes : list value) (d : directory) :
  forallb routeShaped routes = true -> dirSafe d ->
  exists d', forOf addRoute routes d = Ok d' /\ dirSafe d'.
Proof.
  revert d; induction routes as [| r routes IH]; intros d Hrs Hd; simpl;
    [eauto |].
  simpl in Hrs; apply andb_prop in Hrs; destruct Hrs as [Hr Hrs].
  destruct (addRoute_ok d r Hr Hd) as (d1 & -> & Hd1); cbn [bind].
  now apply IH.
Qed.

Lemma rides_ok (rev : revision) (clock : nat -> Z) (originStopId : string)
    (routeInfoById : directory) (rides : list value) (st : state) :
  forallb rideShaped rides = true -> dirSafe routeInfoById -> stateText st ->
  exists st',
    forOf (rideStep rev clock originStopId routeInfoById) rides st = Ok st' /\
    stateText st'.
Proof.
  intros Hrs Hd; revert st; induction rides as [| ride rides IH]; intros st Hst;
    simpl; [eauto |].
  simpl in Hrs; apply andb_prop in Hrs; destruct Hrs as [Hr Hrs].
  destruct (rideStep_ok rev clock originStopId routeInfoById st ride Hr Hd)
    as (st1 & -> & Hst1); cbn [bind].
  apply IH; auto.
Qed.

Lemma insertSorted_ok (x : entry) (sorted : list entry) :
  hasTextTimestamp x -> Forall hasTextTimestamp sorted ->
  exists out, insertSorted x sorted = Ok out.
Proof.
  intros [sx Hx]; induction 1 as [| y rest [sy Hy] _ IH]; simpl; [eauto |].
  unfold compareEntries; rewrite Hx, Hy; simpl.
  destruct IH as (out & ->); cbn [bind].
  destruct (Date_parse sy), (Date_parse sx); try destruct (0 <? _); eauto.
Qed.

Lemma sortAndTake3_ok (arr : list entry) :
  Forall hasTextTimestamp arr -> exists out, sortAndTake3 arr = Ok out.
Proof.
  unfold sortAndTake3, sortEntries.
  assert (Forall hasTextTimestamp []) as Hacc by constructor.
  revert Hacc; generalize (@nil entry) as acc.
  induction arr as [| x arr IH]; intros acc Hacc Harr; simpl; [eauto |].
  inversion Harr; subst.
  destruct (insertSorted_ok x acc) as (out & Hout); auto.
  rewrite Hout; cbn [bind]; apply IH; [| assumption].
  apply (insertSorted_Forall _ _ _ _ Hout); assumption.
Qed.


End Shaped.

(* ================================================================= *)
(** ** The statements at sample inputs *)

Section Instances.
#[local] Existing Instance Sample.host.

Lemma delayed_iff_over_one_minute_late_witness :
  exists originNode ninetySixNode scheduledTime,
    stopNodes EC_S_STOP_ID Sample.lateRide = Ok (originNode, ninetySixNode) /\
    scheduledTimeOf originNode = Ok scheduledTime /\
    liveTimeOf originNode = Ok (rawISO Sample.lateEntry) /\
    (delayed Sample.lateEntry = true <->
     truthy scheduledTime = true /\
     exists live sched,
       newDate (rawISO Sample.lateEntry) = Ok (Some live) /\
       newDate scheduledTime = Ok (Some sched) /\
       60000 < live - sched) /\
    (forall live sched,
       newDate (rawISO Sample.lateEntry) = Ok (Some live) ->
       newDate scheduledTime = Ok (Some sched) ->
       live - sched <= 60000 -> delayed Sample.lateEntry = false).
Proof.
  apply (delayed_iff_over_one_minute_late Rev15 Sample.clock EC_S_STOP_ID
           Sample.lateRide Sample.greenInfo Sample.st0 Sample.st1 "green");
    vm_compute; reflexivity.
Defined.


Lemma ride_contributes_at_most_one_entry_at_origin_witness :
  (Sample.st1 = Sample.st0 \/
   countEntries (st_buckets Sample.st1) = S (countEntries (st_buckets Sample.st0)) /\
   exists key e, pushed Sample.st0 Sample.st1 key e) /\
  (Sample.st1 <> Sample.st0 ->
   exists statuses w s,
     iterate (or_ (prop Sample.lateRide "stopStatus") (VArr [])) = Ok statuses /\
     In w statuses /\ truthy w = true /\
     prop (unwrap w) "stopId" = VStr s /\
     toLowerCase s = toLowerCase EC_S_STOP_ID).
Proof.
  apply (ride_contributes_at_most_one_entry_at_origin Rev15 Sample.clock
           EC_S_STOP_ID Sample.routes Sample.st0 Sample.st1 Sample.lateRide).
  - vm_compute; discriminate.
  - vm_compute; reflexivity.
Defined.

Lemma last_matching_record_is_used_witness :
  ((exists n, stopNodes EC_S_STOP_ID Sample.twiceRide
              = Ok (unwrap Sample.originLate, n)) /\
   liveTimeOf (unwrap Sample.originLate) = Ok (rawISO Sample.lateEntry)) /\
  ((exists o, stopNodes EC_S_STOP_ID Sample.twiceRide
              = Ok (o, unwrap Sample.destination)) /\
   reaches96Of (rawISO Sample.lateEntry) (unwrap Sample.destination)
   = Ok (direct Sample.lateEntry)).
Proof.
  split.
  - apply (last_matching_record_is_used Rev15 Sample.clock EC_S_STOP_ID
             Sample.twiceRide Sample.greenInfo Sample.st0 Sample.st1 "green"
             Sample.lateEntry [Sample.originEarly] [Sample.destination]
             Sample.originLate).
    + vm_compute; reflexivity.
    + vm_compute; reflexivity.
    + vm_compute; reflexivity.
    + split; vm_compute; reflexivity.
    + intros w' [<- | []] [_ H]; vm_compute in H; discriminate.
  - apply (last_matching_record_is_used Rev15 Sample.clock EC_S_STOP_ID
             Sample.twiceRide Sample.greenInfo Sample.st0 Sample.st1 "green"
             Sample.lateEntry [Sample.originEarly; Sample.originLate] []
             Sample.destination).
    + vm_compute; reflexivity.
    + vm_compute; reflexivity.
    + vm_compute; reflexivity.
    + split; vm_compute; reflexivity.
    + intros w' [].
Defined.




Lemma normalization_depends_on_clock_only_through_inMinutes_witness :
  parseTripShotCommutePlanForOrigin Rev15 Sample.clock Sample.twinDocument
    EC_S_STOP_ID "EC S" =
  parseTripShotCommutePlanForOrigin Rev15 (fun _ => 1709286900000)
    Sample.twinDocument EC_S_STOP_ID "EC S".
Proof.
  apply (normalization_depends_on_clock_only_through_inMinutes Rev15
           EC_S_STOP_ID Sample.clock (fun _ => 1709286900000)
           Sample.twinDocument "EC S").
  intros n; reflexivity.
Defined.





(** A ride list that holds [null] makes [isWalkingRide] read a property of
    [null] before the guard of [considerRide] is reached, whatever the
    host, the revision, the clock and the origin. *)
Lemma null_ride_throws (host : Host) (rev : revision) (clock : nat -> Z)
    (originStopId originLabel : string) :
  parseTripShotCommutePlanForOrigin rev clock Sample.nullRideDocument
    originStopId originLabel = Throw TypeError.
Proof. reflexivity. Qed.

(** C5 at the failing input: for a route without a colour word revision 15
    shows the bare bucket key, where revision 14 shows it capitalized. *)
Theorem unlabelled_route_color_rev15 :
  Sample.normalize Rev15 Sample.crimsonDocument
  = Ok (mkOutput "EC S" [] [] [Sample.crimsonEntry "blue"]) /\
  Sample.normalize Rev14 Sample.crimsonDocument
  = Ok (mkOutput "EC S" [] [] [Sample.crimsonEntry "Blue"]).
Proof. split; vm_compute; reflexivity. Qed.

(** The scenarios of the specification, run in both revisions. *)
Example scenario_walking_ride_excluded (rev : revision) :
  Sample.normalize rev
    (Sample.document [Sample.route "r1" "Green Loop"] [Sample.walkingRide])
  = Ok Sample.emptyOutput.
Proof. destruct rev; vm_compute; reflexivity. Qed.

Example scenario_manhattanville_excluded (rev : revision) :
  Sample.normalize rev Sample.manhattanvilleDocument = Ok Sample.emptyOutput.
Proof. destruct rev; vm_compute; reflexivity. Qed.

Example scenario_three_minutes_late_is_delayed (rev : revision) :
  exists e,
    Sample.normalize rev
      (Sample.document [Sample.route "r1" "Green Loop"]
         [Sample.ride "r1" [Sample.originLate]])
    = Ok (mkOutput "EC S" [e] [] []) /\ delayed e = true.
Proof. destruct rev; eexists; split; vm_compute; reflexivity. Qed.

Example scenario_one_minute_late_is_not_delayed (rev : revision) :
  exists e,
    Sample.normalize rev
      (Sample.document [Sample.route "r1" "Green Loop"]
         [Sample.ride "r1" [Sample.onTimeOrigin]])
    = Ok (mkOutput "EC S" [e] [] []) /\ delayed e = false.
Proof. destruct rev; eexists; split; vm_compute; reflexivity. Qed.

Example scenario_destination_later_is_direct (rev : revision) :
  exists e,
    Sample.normalize rev
      (Sample.document [Sample.route "r1" "Green Loop"] [Sample.lateRide])
    = Ok (mkOutput "EC S" [e] [] []) /\ direct e = true.
Proof. destruct rev; eexists; split; vm_compute; reflexivity. Qed.

Example scenario_destination_earlier_is_not_direct (rev : revision) :
  exists e,
    Sample.normalize rev
      (Sample.document [Sample.route "r1" "Green Loop"]
         [Sample.ride "r1" [Sample.originLate; Sample.earlierDestination]])
    = Ok (mkOutput "EC S" [e] [] []) /\ direct e = false.
Proof. destruct rev; eexists; split; vm_compute; reflexivity. Qed.

End Instances.

(* ================================================================= *)
(** ** Rides that are left out *)

Section LeftOut.
Context {host : Host}.
Variable rev : revision.
Variable clock : nat -> Z.
Variable originStopId : string.

Lemma includes_empty (w : string) : w <> "" -> includes "" w = false.
Proof. destruct w; [congruence | reflexivity]. Qed.

(** X1.  A ride whose mode (or, without a mode, whose type) is text that
    holds "walk" once lower-cased is dropped by the ride loop, whatever else
    it carries. *)
Theorem walking_ride_contributes_nothing
    (routeInfoById : directory) (st : state) (ride : value) (s : string) :
  or_ (prop ride "mode") (or_ (prop ride "type") (VStr "")) = VStr s ->
  includes (toLowerCase s) "walk" = true ->
  rideStep rev clock originStopId routeInfoById st ride = Ok st.
Proof.
  intros Hmode Hwalk; unfold rideStep, isWalkingRide.
  assert (get ride "mode" = Ok (prop ride "mode")) as ->.
  { destruct ride; try reflexivity; simpl in Hmode; injection Hmode as <-;
      rewrite toLowerCase_empty in Hwalk; discriminate. }
  cbn [bind]; rewrite Hmode; simpl; rewrite Hwalk; reflexivity.
Qed.

Lemma excludedRoute_word (w rName rShort : string) :
  excludedWord rev w ->
  includes rName w = true \/ includes rShort w = true ->
  excludedRoute rev rName rShort = true.
Proof.
  unfold excludedWord, excludedRoute.
  intros [-> | [-> [-> | ->]]] [H | H]; try destruct rev; rewrite H;
    repeat rewrite orb_true_r; reflexivity.
Qed.

Lemma excludedWord_not_empty (w : string) : excludedWord rev w -> w <> "".
Proof. intros [-> | [_ [-> | ->]]]; discriminate. Qed.

Lemma callToLowerCase_or (v : value) :
  textOrMissing v = true ->
  exists s, callToLowerCase (or_ v (VStr "")) = Ok s /\
            forall n, v = VStr n -> n <> "" -> s = toLowerCase n.
Proof.
  intros Hv; destruct (textOrMissing_inv v Hv) as [-> | [-> | [n ->]]];
    simpl; try (eexists; split; [reflexivity | intros; discriminate]).
  unfold or_; simpl. destruct (String.eqb_spec n "") as [-> | Hn]; simpl.
  - eexists; split; [reflexivity | intros n' Hn' Hne; congruence].
  - eexists; split; [reflexivity | intros n' Hn' _; congruence].
Qed.

(** X2.  A ride whose route has a name or a short name that holds an
    excluded word once lower-cased ("manhattanville" in both revisions,
    "m'ville" and "mville" too in revision 14) yields no entry. *)
Theorem excluded_route_contributes_nothing
    (ride routeInfo : value) (st : state) (n w : string) :
  excludedWord rev w ->
  textOrMissing (prop routeInfo "name") = true ->
  textOrMissing (prop routeInfo "shortName") = true ->
  prop routeInfo "name" = VStr n \/ prop routeInfo "shortName" = VStr n ->
  includes (toLowerCase n) w = true ->
  considerRide rev clock originStopId ride routeInfo st = Ok st.
Proof.
  intros Hw Hname Hshort Hn Hin; unfold considerRide.
  destruct (negb (truthy ride) || negb (truthy routeInfo))%bool; [reflexivity |].
  destruct (callToLowerCase_or _ Hname) as (rName & -> & HrName).
  destruct (callToLowerCase_or _ Hshort) as (rShort & -> & HrShort).
  cbn [bind].
  assert (n <> "") as Hne.
  { intros ->; rewrite toLowerCase_empty, includes_empty in Hin;
      [discriminate | now apply excludedWord_not_empty]. }
  rewrite (excludedRoute_word w); [reflexivity | assumption |].
  destruct Hn as [Hn | Hn];
    [left; rewrite (HrName n Hn Hne) | right; rewrite (HrShort n Hn Hne)];
    assumption.
Qed.

End LeftOut.

(* ================================================================= *)
(** ** The route directory and the buckets *)

Section Routes.
Context {host : Host}.





(** X4.  A route of the directory goes to the bucket of the first colour
    word, green before red before blue, that its name or short name holds,
    and to blue when they hold none; the two revisions choose the same
    bucket, and revision 14 displays that bucket's name with a capital
    initial. *)
Theorem directory_route_bucket (id : value) (name shortName : string) :
  exists label,
    colorLabelOf (VStr name) (VStr shortName) = Ok label /\
    colorKeyOf Rev14 (routeRecord id (VStr name) (VStr shortName) label)
    = Ok (bucketOfNames name shortName) /\
    colorKeyOf Rev15 (routeRecord id (VStr name) (VStr shortName) label)
    = Ok (bucketOfNames name shortName) /\
    displayColor Rev14 (routeRecord id (VStr name) (VStr shortName) label)
      (bucketOfNames name shortName)
    = VStr (capitalize (bucketOfNames name shortName)).
Proof.
  exists (if mentions name shortName "green" then "Green"
          else if mentions name shortName "red" then "Red"
          else if mentions name shortName "blue" then "Blue" else "").
  unfold colorLabelOf, colorKeyOf, displayColor, bucketOfNames, mentions,
    routeRecord, regexTestI.
  cbn [prop assoc opt String.eqb Ascii.eqb Bool.eqb toStr bind].
  destruct (includes (asciiLower name) "green"),
           (includes (asciiLower shortName) "green"),
           (includes (asciiLower name) "red"),
           (includes (asciiLower shortName) "red"),
           (includes (asciiLower name) "blue"),
           (includes (asciiLower shortName) "blue");
    cbn;
    rewrite ?(toLowerCase_ascii "Green" eq_refl),
            ?(toLowerCase_ascii "Red" eq_refl),
            ?(toLowerCase_ascii "Blue" eq_refl); cbn; auto.
Qed.

End Routes.

(* ================================================================= *)
(** ** The fields of an entry *)

Section Fields.
Context {host : Host}.
Variable rev : revision.
Variable clock : nat -> Z.
Variable originStopId : string.



(** X6.  What an entry records: the route's name, a truthy raw timestamp
    that converts to a date without throwing, and one of the three buckets.
    When the timestamp is no valid date the entry is produced all the same,
    with the time text "NaN:NaN am", no minute count and both flags off;
    when it is valid the minute count is the rounded distance to the clock
    reading, never negative. *)
Theorem entry_fields
    (ride routeInfo : value) (st st' : state) (key : string) (e : entry) :
  considerRide rev clock originStopId ride routeInfo st = Ok st' ->
  pushed st st' key e ->
  truthy (rawISO e) = true /\
  routeName e = prop routeInfo "name" /\
  isBucketKey key /\
  formatTime (rawISO e) = Ok (time e) /\
  exists t,
    newDate (rawISO e) = Ok t /\
    (t = None ->
     time e = "NaN:NaN am" /\ inMinutes e = None /\
     delayed e = false /\ direct e = false) /\
    (forall ms, t = Some ms ->
       inMinutes e
       = Some (Z.max 0 ((ms - clock (st_ticks st) + 30000) / 60000))).
Proof.
  intros H Hp.
  pose proof (push_key _ _ _ _ Hp) as Hkey.
  destruct (considerRide_pushed _ _ _ _ _ _ _ _ _ H Hp)
    as [rName rShort originNode ninetySixNode scheduledTime liveTime reaches96
        colorKey liveDate time_ inMinutes_ delayed_
        _ _ _ _ _ _ _ _ _ Hlive Hreach _ Hdate Htime Hmin Hdel].
  simpl.
  split; [assumption |]. split; [reflexivity |]. split; [assumption |].
  split; [assumption |].
  exists liveDate; split; [assumption |].
  unfold formatTime in Htime; unfold minutesFromNow in Hmin.
  rewrite Hdate in Htime, Hmin; cbn [bind] in Htime, Hmin.
  injection Htime as <-; injection Hmin as <-.
  split.
  - intros ->. split; [reflexivity |]. split; [reflexivity |]. split.
    + unfold delayedOf in Hdel.
      destruct (truthy scheduledTime); [| congruence].
      destruct (newDate scheduledTime) as [[s |] |]; simpl in Hdel; congruence.
    + unfold reaches96Of in Hreach.
      destruct (truthy ninetySixNode); [| congruence].
      destruct (ninetySixTimeOf ninetySixNode) as [t96 |]; simpl in Hreach;
        [| discriminate].
      destruct (truthy t96); [| congruence].
      rewrite Hdate in Hreach; cbn [bind] in Hreach.
      destruct (newDate t96) as [[b |] |]; simpl in Hreach; congruence.
  - intros ms ->; reflexivity.
Qed.

(** X7.  [minutesFromNow] on a valid date: never negative; zero for a date
    that is past or less than half a minute ahead; otherwise the number of
    minutes within half a minute of the distance. *)
Theorem minutesFromNow_rounds (v : value) (t now : Z) :
  newDate v = Ok (Some t) ->
  exists n,
    minutesFromNow v now = Ok (Some n) /\ 0 <= n /\
    (t - now < 30000 -> n = 0) /\
    (30000 <= t - now ->
     60000 * n - 30000 <= t - now < 60000 * n + 30000).
Proof.
  intros Hv; unfold minutesFromNow; rewrite Hv; cbn [bind].
  eexists; split; [reflexivity |].
  pose proof (Z.div_mod (t - now + 30000) 60000 ltac:(lia)) as Hdm.
  pose proof (Z.mod_pos_bound (t - now + 30000) 60000 ltac:(lia)) as Hmod.
  repeat split; try nia; try lia.
Qed.

End Fields.

(* ================================================================= *)
(** ** The time text *)

Section TimeText.
Context {host : Host}.

Lemma range_forallb (f : Z -> bool) (n : nat) :
  forallb f (map Z.of_nat (seq 0 n)) = true ->
  forall z, 0 <= z < Z.of_nat n -> f z = true.
Proof.
  intros H z Hz; rewrite forallb_forall in H; apply H.
  apply in_map_iff; exists (Z.to_nat z); split; [lia |].
  apply in_seq; lia.
Qed.

Lemma formatBody_clockText (h m : Z) :
  0 <= h < 24 -> 0 <= m < 60 ->
  (string_of_Z (Z.rem (h + 11) 12 + 1) ++ ":" ++ padStart2 (string_of_Z m)
   ++ " " ++ (if (12 <=? h)%Z then "pm" else "am"))%string = clockText h m /\
  1 <= hour12 h <= 12 /\ String.length (twoDigits m) = 2%nat.
Proof.
  intros Hh Hm.
  pose (check := fun h m =>
    ((string_of_Z (Z.rem (h + 11) 12 + 1) ++ ":" ++ padStart2 (string_of_Z m)
      ++ " " ++ (if (12 <=? h)%Z then "pm" else "am")) =? clockText h m)%string
    && (1 <=? hour12 h) && (hour12 h <=? 12)
    && (String.length (twoDigits m) =? 2)%nat).
  assert (check h m = true) as Hc.
  { apply (range_forallb (fun h => forallb (check h) (map Z.of_nat (seq 0 60))) 24)
      with (z := h) in Hh; [| vm_compute; reflexivity].
    exact (range_forallb (check h) 60 Hh m Hm). }
  unfold check in Hc.
  repeat (apply andb_prop in Hc; destruct Hc as [Hc ?]).
  apply String.eqb_eq in Hc.
  repeat split; try assumption; try (now apply Z.leb_le); now apply Nat.eqb_eq.
Qed.

(** X8.  [formatTime] on a valid date, the host's hour being within the day
    and its minute within the hour: the hour on the twelve-hour dial (12 at
    midnight and at noon), a colon, the minute on two digits, and "am"
    before noon, "pm" from noon on. *)
Theorem formatTime_clock_text (v : value) (t : Z) :
  newDate v = Ok (Some t) ->
  0 <= getHours t < 24 -> 0 <= getMinutes t < 60 ->
  formatTime v = Ok (clockText (getHours t) (getMinutes t)) /\
  1 <= hour12 (getHours t) <= 12 /\
  String.length (twoDigits (getMinutes t)) = 2%nat.
Proof.
  intros Hv Hh Hm; unfold formatTime; rewrite Hv; cbn [bind].
  destruct (formatBody_clockText _ _ Hh Hm) as (Htext & Hhour & Hlen).
  cbv zeta; rewrite Htext; auto.
Qed.

End TimeText.

(* ================================================================= *)
(** ** What the sort keeps *)

Section SortMore.
Context {host : Host}.

Lemma insertSorted_Permutation (x : entry) (sorted out : list entry) :
  insertSorted x sorted = Ok out -> Permutation (x :: sorted) out.
Proof.
  revert out; induction sorted as [| y rest IH]; intros out H; simpl in H.
  - injection H as <-; apply Permutation_refl.
  - step H.
    assert (forall r, insertSorted x rest = Ok r ->
                      Permutation (x :: y :: rest) (y :: r)) as Hrec.
    { intros r Hr; eapply perm_trans; [apply perm_swap |].
      apply perm_skip; now apply IH. }
    destruct x0 as [d |].
    + destruct (0 <? d).
      * injection H as <-; apply Permutation_refl.
      * step H; injection H as <-; auto.
    + step H; injection H as <-; auto.
Qed.

Lemma sortLoop_Permutation (arr acc out : list entry) :
  forOf (fun sorted x => insertSorted x sorted) arr acc = Ok out ->
  Permutation (acc ++ arr) out.
Proof.
  revert acc; induction arr as [| x arr IH]; intros acc H; simpl in H.
  - injection H as <-; rewrite app_nil_r; apply Permutation_refl.
  - step H. apply IH in H. apply insertSorted_Permutation in E.
    eapply perm_trans; [| exact H].
    eapply perm_trans; [apply Permutation_sym, Permutation_middle |].
    change (x :: acc ++ arr) with ((x :: acc) ++ arr).
    apply Permutation_app_tail; assumption.
Qed.

Lemma StronglySorted_cross {A : Type} (R : A -> A -> Prop) (l1 l2 : list A) :
  StronglySorted R (l1 ++ l2) ->
  forall a b, In a l1 -> In b l2 -> R a b.
Proof.
  induction l1 as [| x l1 IH]; intros Hs a b Ha Hb; [destruct Ha |].
  simpl in Hs; apply StronglySorted_inv in Hs; destruct Hs as [Hs Hx].
  destruct Ha as [<- | Ha]; [| now apply IH].
  rewrite Forall_forall in Hx; apply Hx, in_or_app; now right.
Qed.

(** X9.  The sort neither drops nor invents an entry, and the cut keeps the
    first three: the returned bucket together with the entries cut off is a
    rearrangement of the collected bucket, it has three entries or all of
    them, and when every timestamp is valid no entry cut off is earlier than
    a returned one. *)
Theorem sortAndTake3_keeps_the_earliest (arr out : list entry) :
  sortAndTake3 arr = Ok out ->
  exists rest,
    Permutation arr (out ++ rest) /\
    List.length out = Nat.min 3 (List.length arr) /\
    (validTimes arr -> forall a b, In a out -> In b rest -> notAfter a b).
Proof.
  unfold sortAndTake3; intros H; step H.
  change (Ok (firstn 3 x) = Ok out) in H.
  assert (out = firstn 3 x) as -> by congruence; clear H.
  pose proof (sortLoop_Permutation _ _ _ E) as Hperm; simpl in Hperm.
  exists (skipn 3 x); split; [| split].
  - rewrite firstn_skipn; assumption.
  - rewrite length_firstn, (Permutation_length Hperm); reflexivity.
  - intros Hv; destruct (sortEntries_ascending arr Hv) as (sorted & Hs & Hasc).
    change (sortEntries arr = Ok x) in E.
    assert (x = sorted) by congruence; subst.
    apply (StronglySorted_cross notAfter).
    rewrite firstn_skipn; exact Hasc.
Qed.

Lemma insertSorted_last (x : entry) (sorted : list entry) :
  Forall (fun y => notAfter y x) sorted ->
  insertSorted x sorted = Ok (sorted ++ [x]).
Proof.
  induction 1 as [| y rest (ty & tx & Hy & Hx & Hle) _ IH]; simpl;
    [reflexivity |].
  rewrite (compareEntries_valid _ _ _ _ Hy Hx); cbn [bind].
  destruct (Z.ltb_spec 0 (ty - tx)); [lia |].
  rewrite IH; reflexivity.
Qed.

Lemma sortLoop_ascending (arr acc : list entry) :
  ascending (acc ++ arr) ->
  forOf (fun sorted x => insertSorted x sorted) arr acc = Ok (acc ++ arr).
Proof.
  revert acc; induction arr as [| x arr IH]; intros acc Hs; simpl.
  - now rewrite app_nil_r.
  - rewrite insertSorted_last.
    + cbn [bind]. rewrite IH; rewrite <- app_assoc; [reflexivity | exact Hs].
    + apply Forall_forall; intros y Hy.
      apply (StronglySorted_cross notAfter acc (x :: arr) Hs); [assumption |].
      now left.
Qed.

(** X10.  Entries that are already in ascending order of timestamp, equal
    timestamps included, come out of the sort in the order they went in:
    rides with the same time keep their order in the document. *)
Theorem sort_keeps_ascending_order (arr : list entry) :
  ascending arr -> sortEntries arr = Ok arr.
Proof.
  intros Hs; unfold sortEntries; now rewrite sortLoop_ascending.
Qed.

End SortMore.

(* ================================================================= *)
(** ** The filter after the normalizer *)

Section FilterMore.
Context {host : Host}.

Lemma filterM_false {A : Type} (f : A -> result bool) (xs kept : list A) :
  (forall x b, f x = Ok b -> b = false) ->
  filterM f xs = Ok kept -> kept = [].
Proof.
  intros Hf; revert kept; induction xs as [| x xs IH]; intros kept H;
    simpl in H.
  - congruence.
  - step H; step H. rewrite (Hf _ _ E) in H. rewrite (IH _ E0) in H.
    congruence.
Qed.

(** X11.  When the engine cannot read the New-York clock text back as a
    date, the comparison with it fails for every entry and the filter, where
    it returns, returns nothing. *)
Theorem unreadable_clock_text_empties_the_bucket
    (instant : Z) (trips kept : list entry) :
  getNYCTime instant = None ->
  filterTripsAfterNYCNow instant trips = Ok kept ->
  kept = [].
Proof.
  unfold filterTripsAfterNYCNow; intros -> H.
  apply (filterM_false _ _ _) in H; [assumption |].
  intros t b; unfold isAfterNow.
  destruct (negb (truthy (rawISO t))); [congruence |].
  destruct (newDate (rawISO t)) as [[x |] |]; simpl; congruence.
Qed.

Lemma push_bucketsAll (P : entry -> Prop) (key : string) (e : entry)
    (b b' : buckets) :
  push key e b = Ok b' -> P e -> bucketsAll P b -> bucketsAll P b'.
Proof.
  intros Hp He (Hg & Hr & Hb); apply push_inv in Hp; unfold bucketsAll.
  destruct Hp as [[_ ->] | [[_ ->] | [_ ->]]]; simpl; repeat split; auto;
    apply Forall_app; auto.
Qed.

Lemma considerRide_dateOk (rev : revision) (clock : nat -> Z)
    (originStopId : string) (ride routeInfo : value) (st st' : state) :
  considerRide rev clock originStopId ride routeInfo st = Ok st' ->
  bucketsAll dateOk (st_buckets st) -> bucketsAll dateOk (st_buckets st').
Proof.
  intros H Hb; apply considerRide_inv in H.
  destruct H as [-> | (key & e & Hd & Hp & _)]; [assumption |].
  apply (push_bucketsAll _ _ _ _ _ Hp); [| assumption].
  destruct Hd; unfold dateOk; simpl; eauto.
Qed.

Lemma rides_dateOk (rev : revision) (clock : nat -> Z) (originStopId : string)
    (routeInfoById : directory) (rides : list value) (st st' : state) :
  forOf (rideStep rev clock originStopId routeInfoById) rides st = Ok st' ->
  bucketsAll dateOk (st_buckets st) -> bucketsAll dateOk (st_buckets st').
Proof.
  revert st; induction rides as [| ride rides IH]; intros st H Hb; simpl in H.
  - congruence.
  - step H. apply (IH _ H).
    destruct (rideStep_inv _ _ _ _ _ _ _ E) as [-> | (routeInfo & _ & Hc)];
      [assumption |].
    exact (considerRide_dateOk _ _ _ _ _ _ _ Hc Hb).
Qed.

Lemma fillBuckets_dateOk (rev : revision) (clock : nat -> Z) (json : value)
    (originStopId : string) (b : buckets) :
  fillBuckets rev clock json originStopId = Ok b -> bucketsAll dateOk b.
Proof.
  unfold fillBuckets; intros H; do 5 step H. injection H as <-.
  match goal with
  | Hr : forOf (rideStep _ _ _ _) _ _ = Ok _ |- _ =>
      apply (rides_dateOk _ _ _ _ _ _ _ Hr)
  end.
  repeat split; constructor.
Qed.

Lemma sortAndTake3_Forall (P : entry -> Prop) (arr out : list entry) :
  sortAndTake3 arr = Ok out -> Forall P arr -> Forall P out.
Proof.
  unfold sortAndTake3; intros H Harr; step H.
  change (Ok (firstn 3 x) = Ok out) in H.
  assert (out = firstn 3 x) as -> by congruence.
  apply firstn_Forall.
  apply sortLoop_Permutation in E; simpl in E.
  rewrite Forall_forall in *; intros e He; apply Harr.
  apply (Permutation_in _ (Permutation_sym E) He).
Qed.

Lemma isAfterNow_dateOk (now : option Z) (t : entry) :
  dateOk t ->
  isAfterNow now t
  = Ok (match now with Some n => atOrAfter n t | None => false end).
Proof.
  intros [Ht (d & Hd)]; unfold isAfterNow, atOrAfter, instantOf.
  rewrite Ht, Hd; simpl. destruct d, now; reflexivity.
Qed.

Lemma filterTrips_dateOk (instant : Z) (trips : list entry) :
  Forall dateOk trips ->
  filterTripsAfterNYCNow instant trips
  = Ok (filter (fun t => match getNYCTime instant with
                         | Some n => atOrAfter n t
                         | None => false
                         end) trips).
Proof.
  intros H; unfold filterTripsAfterNYCNow; apply filterM_pure.
  eapply Forall_impl; [| exact H].
  intros t Ht; now apply isAfterNow_dateOk.
Qed.

Lemma filter_length_le {A : Type} (f : A -> bool) (l : list A) :
  (List.length (filter f l) <= List.length l)%nat.
Proof.
  induction l as [| x l IH]; simpl; [lia |].
  destruct (f x); simpl; lia.
Qed.

Lemma filter_StronglySorted {A : Type} (R : A -> A -> Prop) (f : A -> bool)
    (l : list A) :
  StronglySorted R l -> StronglySorted R (filter f l).
Proof.
  induction 1 as [| x l Hs IH Hx]; simpl; [constructor |].
  destruct (f x); [| assumption].
  constructor; [assumption |].
  rewrite Forall_forall in *; intros y Hy; apply Hx.
  apply filter_In in Hy; tauto.
Qed.

(** X12.  The filter on what the normalizer returned, for each of the three
    buckets: it does not throw; it returns at most three entries, all of
    them entries of the bucket, each at or after the New-York reading; it
    keeps an ascending bucket ascending; and it returns nothing when that
    reading is no valid date. *)
Theorem filter_after_normalizer
    (rev : revision) (clock : nat -> Z) (json : value)
    (originStopId originLabel : string) (out : output) (instant : Z)
    (bucket : list entry) :
  parseTripShotCommutePlanForOrigin rev clock json originStopId originLabel
    = Ok out ->
  In bucket [out_green out; out_red out; out_blue out] ->
  exists kept,
    filterTripsAfterNYCNow instant bucket = Ok kept /\
    (List.length kept <= 3)%nat /\
    (forall t, In t kept ->
       In t bucket /\
       exists now x, getNYCTime instant = Some now /\
                     instantOf t = Some x /\ now <= x) /\
    (ascending bucket -> ascending kept) /\
    (getNYCTime instant = None -> kept = []).
Proof.
  unfold parseTripShotCommutePlanForOrigin; intros H Hin.
  do 4 step H. injection H as <-; simpl in Hin.
  destruct (fillBuckets_dateOk _ _ _ _ _ E) as (Hg & Hr & Hb).
  pose proof (sortAndTake3_Forall _ _ _ E0 Hg) as Hg'.
  pose proof (sortAndTake3_Forall _ _ _ E1 Hr) as Hr'.
  pose proof (sortAndTake3_Forall _ _ _ E2 Hb) as Hb'.
  assert (Forall dateOk bucket /\ (List.length bucket <= 3)%nat) as [Hok Hlen].
  { destruct Hin as [<- | [<- | [<- | []]]]; (split; [assumption |]);
      match goal with
      | Hs : sortAndTake3 _ = Ok ?o |- (List.length ?o <= 3)%nat =>
          exact (proj1 (sortAndTake3_spec _ _ Hs))
      end. }
  eexists; split; [apply filterTrips_dateOk; assumption |].
  split; [| split; [| split]].
  - eapply Nat.le_trans; [apply filter_length_le | assumption].
  - intros t Ht; apply filter_In in Ht; destruct Ht as [Ht Hk].
    split; [assumption |].
    destruct (getNYCTime instant) as [now |]; [| discriminate].
    unfold atOrAfter in Hk; destruct (instantOf t) as [ms |]; [| discriminate].
    exists now, ms; repeat split; auto; now apply Z.leb_le.
  - apply filter_StronglySorted.
  - intros ->. clear; induction bucket; simpl; auto.
Qed.

End FilterMore.

(* ================================================================= *)
(** ** The shuttle endpoint *)

Lemma andThen_Some {A B : Type} (m : option A) (k : A -> option B) (b : B) :
  andThen m k = Some b -> exists a, m = Some a /\ k a = Some b.
Proof. destruct m; simpl; intros H; [eauto | discriminate]. Qed.

Tactic Notation "stepo" hyp(H) "as" ident(a) ident(E) :=
  apply andThen_Some in H; destruct H as (a & E & H).

Lemma caught_Some {A : Type} (r : result A) (a : A) :
  caught r = Some a -> r = Ok a.
Proof. destruct r; simpl; congruence. Qed.

Section EndpointFacts.
Context {host : Host}.
Variables getFullYear getMonth getDate : Z -> Z.
Variable toISOString : Z -> string.
Variables EC_S_LOCATION S120_LOCATION NINETY_SIX_LOCATION : value.

#[local] Abbreviation build :=
  (buildTripShotPayload getFullYear getMonth getDate toISOString
     NINETY_SIX_LOCATION).
#[local] Abbreviation handler :=
  (shuttleHandler getFullYear getMonth getDate toISOString
     EC_S_LOCATION S120_LOCATION NINETY_SIX_LOCATION).

Lemma parse_shape (rev : revision) (clock : nat -> Z) (json : value)
    (originStopId originLabel : string) (out : output) :
  parseTripShotCommutePlanForOrigin rev clock json originStopId originLabel
    = Ok out ->
  stopName out = originLabel /\ sizeWithin 3 out /\
  Forall dateOk (out_green out) /\ Forall dateOk (out_red out) /\
  Forall dateOk (out_blue out).
Proof.
  unfold parseTripShotCommutePlanForOrigin; intros H; do 4 step H.
  injection H as <-; simpl.
  destruct (fillBuckets_dateOk _ _ _ _ _ E) as (Hg & Hr & Hb).
  split; [reflexivity |]. split.
  - repeat split;
      match goal with
      | Hs : sortAndTake3 _ = Ok ?o |- (List.length ?o <= 3)%nat =>
          exact (proj1 (sortAndTake3_spec _ _ Hs))
      end.
  - repeat split; eapply sortAndTake3_Forall; eassumption.
Qed.

Lemma filterOutput_inv (instant : nat -> Z) (first : nat) (o o' : output) :
  Forall dateOk (out_green o) -> Forall dateOk (out_red o) ->
  Forall dateOk (out_blue o) ->
  filterOutput instant first o = Some o' ->
  o' = mkOutput (stopName o)
         (filter (keptAt (instant first)) (out_green o))
         (filter (keptAt (instant (S first))) (out_red o))
         (filter (keptAt (instant (S (S first)))) (out_blue o)).
Proof.
  intros Hg Hr Hb; unfold filterOutput.
  rewrite !filterTrips_dateOk by assumption; simpl.
  intros H; injection H as <-; reflexivity.
Qed.

Lemma filterOutput_total (instant : nat -> Z) (first : nat) (o : output) :
  Forall dateOk (out_green o) -> Forall dateOk (out_red o) ->
  Forall dateOk (out_blue o) ->
  exists o', filterOutput instant first o = Some o'.
Proof.
  intros Hg Hr Hb; unfold filterOutput.
  rewrite !filterTrips_dateOk by assumption; simpl; eauto.
Qed.

(** X13.  A 200 answer is never partial: both requests were answered [ok]
    with a JSON document, both documents went through the normalizer, and
    the body carries both outputs under their labels, no bucket above three
    entries. In revision 14 the body is the two outputs; in revision 15 each
    bucket is the normalizer's bucket cut down to the entries at or after
    the New-York reading taken for that bucket. *)
Theorem shuttle_success_is_complete
    (rev : revision) (upstream : value -> option reply)
    (instant : nat -> Z) (clockEC clock120 : nat -> Z) (b : responseBody) :
  handler rev upstream instant clockEC clock120 = mkResponse 200 b ->
  exists payloadEC payload120 dataEC data120 parsedEC parsed120 ecS s120,
    b = ShuttleBody ecS s120 /\
    build rev (instant 0%nat) "EC S" EC_S_LOCATION EC_S_STOP_ID
      = Some payloadEC /\
    build rev (instant 1%nat) "120 S" S120_LOCATION S120_STOP_ID
      = Some payload120 /\
    upstream payloadEC = Some (mkReply true (Some dataEC)) /\
    upstream payload120 = Some (mkReply true (Some data120)) /\
    parseTripShotCommutePlanForOrigin rev clockEC dataEC EC_S_STOP_ID "EC S"
      = Ok parsedEC /\
    parseTripShotCommutePlanForOrigin rev clock120 data120 S120_STOP_ID "120 S"
      = Ok parsed120 /\
    stopName ecS = "EC S" /\ stopName s120 = "120 S" /\
    sizeWithin 3 ecS /\ sizeWithin 3 s120 /\
    match rev with
    | Rev14 => ecS = parsedEC /\ s120 = parsed120
    | Rev15 =>
        out_green ecS = filter (keptAt (instant 2%nat)) (out_green parsedEC) /\
        out_red ecS = filter (keptAt (instant 3%nat)) (out_red parsedEC) /\
        out_blue ecS = filter (keptAt (instant 4%nat)) (out_blue parsedEC) /\
        out_green s120 = filter (keptAt (instant 5%nat)) (out_green parsed120) /\
        out_red s120 = filter (keptAt (instant 6%nat)) (out_red parsed120) /\
        out_blue s120 = filter (keptAt (instant 7%nat)) (out_blue parsed120)
    end.
Proof.
  unfold shuttleHandler; intros H.
  destruct (shuttleTry _ _ _ _ _ _ _ _ _ _ _ _) as [r |] eqn:Htry;
    [subst r | discriminate].
  unfold shuttleTry in Htry.
  stepo Htry as payloadEC HpEC. stepo Htry as payload120 Hp120.
  stepo Htry as respEC HrEC. stepo Htry as resp120 Hr120.
  destruct respEC as [okEC jsonEC], resp120 as [ok120 json120]; simpl in Htry.
  destruct okEC; simpl in Htry; [| discriminate].
  destruct ok120; simpl in Htry; [| discriminate].
  stepo Htry as dataEC HdEC. stepo Htry as data120 Hd120.
  stepo Htry as parsedEC HparEC. stepo Htry as parsed120 Hpar120.
  subst jsonEC json120.
  apply caught_Some in HparEC, Hpar120.
  destruct (parse_shape _ _ _ _ _ _ HparEC) as (HnEC & HsEC & HgEC & HredEC & HbEC).
  destruct (parse_shape _ _ _ _ _ _ Hpar120)
    as (Hn120 & Hs120 & Hg120 & Hred120 & Hb120).
  exists payloadEC, payload120, dataEC, data120, parsedEC, parsed120.
  destruct rev.
  - injection Htry as <-.
    exists parsedEC, parsed120; repeat (split; [assumption || reflexivity |]).
    split; reflexivity.
  - stepo Htry as filteredEC HfEC. stepo Htry as filtered120 Hf120.
    injection Htry as <-.
    apply filterOutput_inv in HfEC, Hf120; try assumption.
    subst filteredEC filtered120.
    eexists _, _; split; [reflexivity |].
    repeat (split; [assumption || reflexivity |]).
    unfold sizeWithin; simpl.
    destruct HsEC as (? & ? & ?), Hs120 as (? & ? & ?).
    repeat split; try reflexivity;
      (eapply Nat.le_trans; [apply filter_length_le | assumption]).
Qed.

Lemma parse_returns (rev : revision) (clock : nat -> Z) (json : value)
    (originStopId originLabel : string) :
  wellShaped json = true ->
  exists out,
    parseTripShotCommutePlanForOrigin rev clock json originStopId originLabel
    = Ok out.
Proof.
  unfold wellShaped; intros H.
  apply andb_prop in H; destruct H as [H Hrides].
  apply andb_prop in H; destruct H as [Hobj Hroutes].
  unfold parseTripShotCommutePlanForOrigin, fillBuckets.
  rewrite (get_object _ _ Hobj); cbn [bind].
  destruct (iterate_listOrMissing _ _ Hroutes) as (routes & -> & Hrs).
  cbn [bind].
  destruct (routes_ok routes emptyDirectory Hrs) as (d & -> & Hd);
    [split; simpl; [discriminate | discriminate] |].
  cbn [bind].
  destruct (iterate_listOrMissing _ _ Hrides) as (rides & -> & Hrds).
  cbn [bind].
  destruct (rides_ok rev clock originStopId d rides (mkState emptyBuckets 0%nat)
              Hrds Hd) as (st & -> & Hg & Hr & Hb);
    [repeat split; constructor |].
  cbn [bind].
  destruct (sortAndTake3_ok _ Hg) as (g & ->).
  destruct (sortAndTake3_ok _ Hr) as (r & ->).
  destruct (sortAndTake3_ok _ Hb) as (b & ->).
  cbn [bind]; eauto.
Qed.

(** X14.  With both requests answered [ok] by documents of the interface's
    shape (and, in revision 15, a New-York clock text that reads back as a
    date when the two request bodies are built) the answer is a 200. *)
Theorem shuttle_answers_well_shaped_documents
    (rev : revision) (upstream : value -> option reply)
    (instant : nat -> Z) (clockEC clock120 : nat -> Z) :
  (forall payload, exists doc,
      upstream payload = Some (mkReply true (Some doc)) /\
      wellShaped doc = true) ->
  (rev = Rev15 ->
   getNYCTime (instant 0%nat) <> None /\ getNYCTime (instant 1%nat) <> None) ->
  status (handler rev upstream instant clockEC clock120) = 200.
Proof.
  intros Hup Hclock; unfold shuttleHandler, shuttleTry.
  assert (exists p, build rev (instant 0%nat) "EC S" EC_S_LOCATION EC_S_STOP_ID
                    = Some p) as (pEC & ->).
  { unfold buildTripShotPayload, getNYCPayloadTime; destruct rev; simpl; [eauto |].
    destruct (Hclock eq_refl) as [H0 _].
    destruct (getNYCTime (instant 0%nat)); [simpl; eauto | contradiction]. }
  assert (exists p, build rev (instant 1%nat) "120 S" S120_LOCATION S120_STOP_ID
                    = Some p) as (p120 & ->).
  { unfold buildTripShotPayload, getNYCPayloadTime; destruct rev; simpl; [eauto |].
    destruct (Hclock eq_refl) as [_ H1].
    destruct (getNYCTime (instant 1%nat)); [simpl; eauto | contradiction]. }
  cbn [andThen].
  destruct (Hup pEC) as (dEC & -> & HwEC).
  destruct (Hup p120) as (d120 & -> & Hw120).
  cbn [andThen reply_ok reply_json negb orb].
  destruct (parse_returns rev clockEC dEC EC_S_STOP_ID
              "EC S" HwEC) as (oEC & HoEC).
  destruct (parse_returns rev clock120 d120 S120_STOP_ID
              "120 S" Hw120) as (o120 & Ho120).
  rewrite HoEC, Ho120; cbn [caught andThen].
  destruct rev; [reflexivity |].
  destruct (parse_shape _ _ _ _ _ _ HoEC) as (_ & _ & HgEC & HrEC & HbEC).
  destruct (parse_shape _ _ _ _ _ _ Ho120) as (_ & _ & Hg120 & Hr120 & Hb120).
  destruct (filterOutput_total instant 2 oEC HgEC HrEC HbEC) as (fEC & ->).
  destruct (filterOutput_total instant 5 o120 Hg120 Hr120 Hb120) as (f120 & ->).
  reflexivity.
Qed.

(** X15.  Which of the two error answers: "TripShot request failed" is given
    exactly when both request bodies were built, both requests were
    answered, and one of the answers is not [ok]; every other failure, a
    throw of the normalizer included, is answered "Shuttle API error". *)
Theorem shuttle_error_answers
    (rev : revision) (upstream : value -> option reply)
    (instant : nat -> Z) (clockEC clock120 : nat -> Z) :
  let r := handler rev upstream instant clockEC clock120 in
  (status r = 200 \/
   r = mkResponse 500 (ErrorBody "TripShot request failed") \/
   r = mkResponse 500 (ErrorBody "Shuttle API error")) /\
  (r = mkResponse 500 (ErrorBody "TripShot request failed") <->
   exists payloadEC payload120 respEC resp120,
     build rev (instant 0%nat) "EC S" EC_S_LOCATION EC_S_STOP_ID
       = Some payloadEC /\
     build rev (instant 1%nat) "120 S" S120_LOCATION S120_STOP_ID
       = Some payload120 /\
     upstream payloadEC = Some respEC /\ upstream payload120 = Some resp120 /\
     (reply_ok respEC = false \/ reply_ok resp120 = false)).
Proof.
  cbv zeta; unfold shuttleHandler, shuttleTry.
  destruct (build rev (instant 0%nat) "EC S" EC_S_LOCATION EC_S_STOP_ID)
    as [pEC |]; cbn [andThen];
    [| split; [auto | split; [discriminate |
         intros (a & b' & c & d & H & _); discriminate]]].
  destruct (build rev (instant 1%nat) "120 S" S120_LOCATION S120_STOP_ID)
    as [p120 |]; cbn [andThen];
    [| split; [auto | split; [discriminate |
         intros (a & b' & c & d & _ & H & _); discriminate]]].
  destruct (upstream pEC) as [[okEC jEC] |] eqn:HuEC; cbn [andThen];
    [| split; [auto | split; [discriminate |
         intros (a & b' & c & d & Ha & _ & H & _); congruence]]].
  destruct (upstream p120) as [[ok120 j120] |] eqn:Hu120; cbn [andThen];
    [| split; [auto | split; [discriminate |
         intros (a & b' & c & d & Ha & Hb & _ & H & _); congruence]]].
  cbn [reply_ok reply_json].
  destruct okEC, ok120; cbn [negb orb];
    try (split; [auto |]; split; [intros _ | reflexivity];
         exists pEC, p120; eexists _, _; repeat split; eauto; simpl; auto).
  assert (forall (m : option response),
            (forall r, m = Some r -> status r = 200) ->
            let r := match m with
                     | Some r => r
                     | None => mkResponse 500 (ErrorBody "Shuttle API error")
                     end in
            (status r = 200 \/
             r = mkResponse 500 (ErrorBody "TripShot request failed") \/
             r = mkResponse 500 (ErrorBody "Shuttle API error")) /\
            r <> mkResponse 500 (ErrorBody "TripShot request failed")) as Hm.
  { intros [r |] Hr; cbv zeta; [| split; [auto | discriminate]].
    pose proof (Hr r eq_refl) as H200; split; [auto |].
    intros ->; discriminate. }
  match goal with
  | |- (status match ?m with _ => _ end = _ \/ _) /\ _ =>
      destruct (Hm m) as [Hcases Hne]
  end.
  - intros r Hr.
    repeat (apply andThen_Some in Hr; destruct Hr as (? & _ & Hr)).
    destruct rev; [injection Hr as <-; reflexivity |].
    repeat (apply andThen_Some in Hr; destruct Hr as (? & _ & Hr)).
    injection Hr as <-; reflexivity.
  - split; [exact Hcases |]. split; [intros H; contradiction |].
    intros (a & b' & c & d & Ha & Hb & Hc & Hd & Hok).
    assert (c = mkReply true jEC) by congruence.
    assert (d = mkReply true j120) by congruence.
    subst; simpl in Hok; destruct Hok; discriminate.
Qed.

(** X16.  Revision 15 builds the request bodies from the New-York time: when
    the clock text does not read back as a date, [toISOString] throws and
    the endpoint answers "Shuttle API error" whatever the upstream would
    say. Revision 14 builds them from the clock itself and never fails
    there. *)
Theorem shuttle_rev15_needs_a_readable_clock
    (upstream : value -> option reply)
    (instant : nat -> Z) (clockEC clock120 : nat -> Z) :
  getNYCTime (instant 0%nat) = None \/ getNYCTime (instant 1%nat) = None ->
  handler Rev15 upstream instant clockEC clock120
  = mkResponse 500 (ErrorBody "Shuttle API error") /\
  (forall n originName originLocation originStopId,
     build Rev14 (instant n) originName originLocation originStopId <> None).
Proof.
  intros Hnone; split; [| intros; discriminate].
  unfold shuttleHandler, shuttleTry, buildTripShotPayload, getNYCPayloadTime.
  destruct Hnone as [-> | H1]; [reflexivity |].
  destruct (getNYCTime (instant 0%nat)); cbn [andThen]; [| reflexivity].
  rewrite H1; reflexivity.
Qed.

End EndpointFacts.

(* ================================================================= *)
(** ** The subway endpoint *)

Section SubwayFacts.
Context {host : Host}.
Variable stringToNumber : string -> option Z.
Variable toISOString : Z -> string.

#[local] Abbreviation step := (subwayStep stringToNumber toISOString).
#[local] Abbreviation handle := (subwayHandler stringToNumber toISOString).

Lemma lookup_None {A : Type} (key : string) (props : list (string * A)) :
  lookup key props = None -> ~ In key (map fst props).
Proof.
  induction props as [| [k y] rest IH]; simpl; [tauto |].
  destruct (String.eqb_spec key k); [discriminate |].
  intros H [Hk | Hin]; [congruence | exact (IH H Hin)].
Qed.

Lemma lookup_In {A : Type} (key : string) (x : A) (props : list (string * A)) :
  lookup key props = Some x -> In (key, x) props.
Proof.
  induction props as [| [k y] rest IH]; simpl; [discriminate |].
  destruct (String.eqb_spec key k) as [-> |]; [| auto].
  intros H; injection H as <-; now left.
Qed.

Lemma replaceAt_keys {A : Type} (key : string) (x : A) (props : list (string * A)) :
  map fst (replaceAt key x props) = map fst props.
Proof.
  induction props as [| [k y] rest IH]; simpl; [reflexivity |].
  destruct (key =? k)%string; simpl; congruence.
Qed.

Lemma replaceAt_groupOk (key : string) (x : train)
    (props : list (string * train)) :
  NoDup (map fst props) ->
  Forall (fun p => fst p <> key -> groupOk p) props ->
  groupOk (key, x) ->
  Forall groupOk (replaceAt key x props).
Proof.
  intros Hnd Hall Hx; induction props as [| [k y] rest IH]; simpl;
    [constructor |].
  inversion Hnd as [| ? ? Hk Hnd']; inversion Hall as [| ? ? Hy Hall']; subst.
  destruct (String.eqb_spec key k) as [-> |].
  - constructor; [assumption |].
    rewrite Forall_forall in *; intros p Hp; apply Hall'; [assumption |].
    intros Heq; apply Hk; rewrite <- Heq; now apply in_map.
  - constructor; [apply Hy; simpl; congruence | now apply IH].
Qed.

Lemma NoDup_snoc {A : Type} (l : list A) (a : A) :
  NoDup l -> ~ In a l -> NoDup (l ++ [a]).
Proof.
  intros Hl Ha.
  apply (Permutation_NoDup (Permutation_cons_append l a)).
  now constructor.
Qed.

Lemma subwayStep_ok (clock : nat -> Z) (byDest byDest' : list (string * train))
    (ticks ticks' : nat) (st : value) :
  step clock (byDest, ticks) st = Some (byDest', ticks') ->
  byDestOk byDest -> byDestOk byDest'.
Proof.
  unfold subwayStep; intros H [Hnd Hall].
  stepo H as trip Htrip.
  match type of H with
  | (if ?c then _ else _) = _ => destruct c
  end; [injection H as <- <-; split; assumption |].
  stepo H as iso Hiso. stepo H as key Hkey. apply caught_Some in Hkey.
  stepo H as group Hgroup. destruct group as [byDest1 g].
  stepo H as mins Hmins. stepo H as abs Habs.
  injection H as <- <-.
  assert (NoDup (map fst byDest1) /\
          Forall (fun p => fst p <> key -> groupOk p) byDest1 /\
          toStr (destination g) = Ok key) as (Hnd1 & Hall1 & Hdest).
  { destruct (lookup key byDest) as [g0 |] eqn:Hl.
    - injection Hgroup as <- <-. split; [assumption |]. split.
      + eapply Forall_impl; [| exact Hall]; auto.
      + apply lookup_In in Hl. rewrite Forall_forall in Hall.
        exact (proj1 (Hall _ Hl)).
    - destruct (inheritedName key); [discriminate |].
      injection Hgroup as <- <-. split; [| split; [| exact Hkey]].
      + rewrite map_app; simpl.
        apply NoDup_snoc; [assumption | now apply lookup_None].
      + apply Forall_app; split.
        * eapply Forall_impl; [| exact Hall]; auto.
        * constructor; [simpl; congruence | constructor]. }
  split; [rewrite replaceAt_keys; assumption |].
  apply replaceAt_groupOk; try assumption.
  split; simpl; [assumption |].
  destruct (departures g); discriminate.
Qed.

Lemma subwayLoop_ok (clock : nat -> Z) (sts : list value)
    (byDest byDest' : list (string * train)) (ticks ticks' : nat) :
  forEach (step clock) sts (byDest, ticks) = Some (byDest', ticks') ->
  byDestOk byDest -> byDestOk byDest'.
Proof.
  revert byDest ticks; induction sts as [| st sts IH]; intros byDest ticks H Hok;
    simpl in H.
  - injection H as <- <-; assumption.
  - stepo H as s1 Hs1. destruct s1 as [b1 t1].
    exact (IH _ _ H (subwayStep_ok _ _ _ _ _ _ Hs1 Hok)).
Qed.

Lemma insertIndexed_Permutation {A : Type} (n : N) (x : A) (l : list (N * A)) :
  Permutation ((n, x) :: l) (insertIndexed n x l).
Proof.
  induction l as [| [m y] rest IH]; simpl; [apply Permutation_refl |].
  destruct (n <? m)%N; [apply Permutation_refl |].
  eapply perm_trans; [apply perm_swap | now apply perm_skip].
Qed.

Lemma indexed_Permutation {A : Type} (props : list (string * A))
    (acc : list (N * A)) :
  Permutation
    (map snd acc ++ map snd (filter isIndexed props))
    (map snd
       (fold_left (fun acc p =>
                     match arrayIndex (fst p) with
                     | Some n => insertIndexed n (snd p) acc
                     | None => acc
                     end) props acc)).
Proof.
  revert acc; induction props as [| [k y] rest IH]; intros acc; simpl.
  - rewrite app_nil_r; apply Permutation_refl.
  - unfold isIndexed at 1; simpl.
    destruct (arrayIndex k) as [n |]; [| apply IH].
    simpl; eapply perm_trans; [| apply IH].
    eapply perm_trans; [apply Permutation_sym, Permutation_middle |].
    change (y :: map snd acc ++ map snd (filter isIndexed rest))
      with (map snd ((n, y) :: acc) ++ map snd (filter isIndexed rest)).
    apply Permutation_app_tail.
    exact (Permutation_map snd (insertIndexed_Permutation n y acc)).
Qed.

Lemma partition_Permutation {A B : Type} (f : A -> B) (p : A -> bool)
    (l : list A) :
  Permutation (map f l)
    (map f (filter p l) ++ map f (filter (fun x => negb (p x)) l)).
Proof.
  induction l as [| x l IH]; simpl; [constructor |].
  destruct (p x); simpl; [now apply perm_skip |].
  eapply perm_trans; [apply perm_skip, IH | apply Permutation_middle].
Qed.

(** [Object.values] lists every property once. *)
Lemma objectValues_Permutation {A : Type} (props : list (string * A)) :
  Permutation (map snd props) (objectValues props).
Proof.
  unfold objectValues.
  eapply perm_trans; [apply (partition_Permutation snd isIndexed) |].
  apply Permutation_app.
  - exact (indexed_Permutation props []).
  - apply Permutation_refl'; f_equal; apply filter_ext.
    intros [k y]; unfold isIndexed; simpl; destruct (arrayIndex k); reflexivity.
Qed.

Lemma insertBy_Permutation {A : Type} (key : A -> option Z) (x : A) (l : list A) :
  Permutation (x :: l) (insertBy key x l).
Proof.
  induction l as [| y rest IH]; simpl; [apply Permutation_refl |].
  assert (Permutation (x :: y :: rest) (y :: insertBy key x rest)) as Hrec
    by (eapply perm_trans; [apply perm_swap | now apply perm_skip]).
  destruct (key y), (key x); try assumption.
  destruct (0 <? _); [apply Permutation_refl | assumption].
Qed.

Lemma sortByLoop_Permutation {A : Type} (key : A -> option Z) (arr acc : list A) :
  Permutation (acc ++ arr)
    (fold_left (fun sorted x => insertBy key x sorted) arr acc).
Proof.
  revert acc; induction arr as [| x arr IH]; intros acc; simpl.
  - rewrite app_nil_r; apply Permutation_refl.
  - eapply perm_trans; [| apply IH].
    eapply perm_trans; [apply Permutation_sym, Permutation_middle |].
    change (x :: acc ++ arr) with ((x :: acc) ++ arr).
    apply Permutation_app_tail, insertBy_Permutation.
Qed.

Lemma sortBy_Permutation {A : Type} (key : A -> option Z) (arr : list A) :
  Permutation arr (sortBy key arr).
Proof. exact (sortByLoop_Permutation key arr []). Qed.

Section KeyOrder.
Variable A : Type.
Variable key : A -> option Z.

#[local] Abbreviation keyed := (hasKey key).
#[local] Abbreviation keyLe := (keyNotAfter key).

Lemma insertBy_sorted (x : A) (l : list A) :
  keyed x -> Forall keyed l -> StronglySorted keyLe l ->
  StronglySorted keyLe (insertBy key x l).
Proof.
  intros [tx Hx]; induction l as [| y rest IH]; intros Hv Hs; simpl.
  - repeat constructor.
  - inversion Hv as [| ? ? [ty Hy] Hv']; subst.
    apply StronglySorted_inv in Hs; destruct Hs as [Hs Hall].
    rewrite Hy, Hx.
    destruct (Z.ltb_spec 0 (ty - tx)).
    + assert (keyLe x y) as Hxy by (exists tx, ty; repeat split; auto; lia).
      constructor; [constructor; assumption |].
      constructor; [assumption |].
      eapply Forall_impl; [| exact Hall].
      intros z (a & b & Ha & Hb & Hab).
      exists tx, b; repeat split; auto.
      assert (a = ty) by congruence; lia.
    + constructor; [now apply IH |].
      apply (Permutation_Forall (insertBy_Permutation key x rest)).
      constructor; [exists ty, tx; repeat split; auto; lia | assumption].
Qed.

Lemma sortBy_sorted (arr : list A) :
  Forall keyed arr -> StronglySorted keyLe (sortBy key arr).
Proof.
  unfold sortBy.
  assert (Forall keyed [] /\ StronglySorted keyLe []) as Hacc
    by (split; constructor).
  revert Hacc; generalize (@nil A) as acc.
  induction arr as [| x arr IH]; intros acc [Hv Hs] Harr; simpl; [assumption |].
  inversion Harr; subst.
  apply IH; [split |]; auto.
  - apply (Permutation_Forall (insertBy_Permutation key x acc)); auto.
  - now apply insertBy_sorted.
Qed.

End KeyOrder.

Lemma filterTrains_inv (ts kept : list train) :
  filterTrains ts = Some kept -> kept = filter wantedB ts.
Proof.
  revert kept; induction ts as [| t rest IH]; intros kept H; simpl in H.
  - injection H as <-; reflexivity.
  - stepo H as d Hd. stepo H as k Hk. apply caught_Some in Hd.
    rewrite (IH _ Hk) in H.
    destruct (destination t) eqn:Hdest; simpl in Hd; try discriminate.
    injection Hd as <-. injection H as <-.
    assert (wantedB t = includes (toLowerCase s) "south ferry"
                        || includes (toLowerCase s) "van cortlandt") as Hw
      by (unfold wantedB; rewrite Hdest; reflexivity).
    cbn [filter]; rewrite Hw; reflexivity.
Qed.

Lemma byDestOk_destinations (byDest : list (string * train)) :
  byDestOk byDest -> NoDup (map destination (map snd byDest)).
Proof.
  intros [Hnd Hall]; induction byDest as [| [k g] rest IH]; simpl;
    [constructor |].
  inversion Hnd as [| ? ? Hk Hnd']; inversion Hall as [| ? ? [Hg _] Hall'];
    subst; simpl in *.
  constructor; [| now apply IH].
  intros Hin; apply Hk.
  apply in_map_iff in Hin; destruct Hin as (g' & Hdest & Hin).
  apply in_map_iff in Hin; destruct Hin as ([k' g''] & Hsnd & Hin).
  simpl in Hsnd; subst g''.
  rewrite Forall_forall in Hall'; destruct (Hall' _ Hin) as [Hg' _].
  simpl in Hg'. rewrite Hdest, Hg in Hg'. injection Hg' as ->.
  apply in_map_iff; exists (k', g'); auto.
Qed.

Lemma kept_destinations_distinct (keep : train -> bool) (ts : list train)
    (Hts : NoDup (map destination ts)) :
  NoDup (map destination (filter keep ts)).
Proof.
  induction ts as [| t ts IH]; [exact Hts |].
  apply NoDup_cons_iff in Hts; destruct Hts as [Hfresh Hts].
  cbn [filter]; destruct (keep t); [| exact (IH Hts)].
  cbn [map]; apply NoDup_cons; [| exact (IH Hts)].
  contradict Hfresh.
  apply in_map_iff in Hfresh; destruct Hfresh as (t' & Hsame & Hin).
  apply filter_In in Hin; rewrite <- Hsame.
  exact (in_map destination ts t' (proj1 Hin)).
Qed.

Lemma cutTrain_destinations (l : list train) :
  map destination (map cutTrain l) = map destination l.
Proof. rewrite map_map; reflexivity. Qed.

Lemma cutTrain_firstMinutes (t : train) :
  firstMinutes (cutTrain t) = firstMinutes t.
Proof. unfold firstMinutes; simpl; destruct (departures t); reflexivity. Qed.

(** The board behind a 200 answer, unfolded. *)
Lemma subway_success_inv (fetched : option reply) (clock : nat -> Z)
    (b : subwayBody) :
  handle fetched clock = mkSubwayResponse 200 b ->
  exists data sts byDest ticks,
    fetched = Some (mkReply true (Some data)) /\
    iterate (or_ (prop data "stopTimes") (VArr [])) = Ok sts /\
    forEach (step clock) sts ([], 0%nat) = Some (byDest, ticks) /\
    b = SubwayBoard (or_ (prop data "name") (VStr "125th St"))
          (filter wantedB
             (map cutTrain (sortBy firstMinutes (objectValues byDest)))).
Proof.
  unfold subwayHandler; intros H.
  destruct (subwayTry _ _ _ _) as [r |] eqn:Htry; [subst r | discriminate].
  unfold subwayTry in Htry.
  stepo Htry as r Hr. destruct r as [ok json]; simpl in Htry.
  destruct ok; simpl in Htry; [| discriminate].
  stepo Htry as data Hdata. stepo Htry as st0 Hst0. stepo Htry as sts Hsts.
  stepo Htry as state Hstate. stepo Htry as trains Htrains.
  injection Htry as <-.
  apply caught_Some in Hst0, Hsts. apply filterTrains_inv in Htrains.
  destruct state as [byDest ticks]; simpl in *; subst json.
  assert (st0 = prop data "stopTimes") as ->
    by (unfold get in Hst0; destruct data; congruence).
  exists data, sts, byDest, ticks; subst trains; auto.
Qed.

(** X17.  A 200 answer of the subway endpoint lists each destination once;
    every destination on it is text that names South Ferry or Van Cortlandt,
    letter case aside; and every train on it comes with at least one and at
    most three departures. *)
Theorem subway_board_trains (fetched : option reply) (clock : nat -> Z)
    (name : value) (ts : list train) :
  handle fetched clock = mkSubwayResponse 200 (SubwayBoard name ts) ->
  NoDup (map destination ts) /\
  forall t, In t ts ->
    wantedDestination t /\
    (1 <= List.length (departures t) <= 3)%nat.
Proof.
  intros H; destruct (subway_success_inv _ _ _ H)
    as (data & sts & byDest & ticks & _ & _ & Hloop & Hb).
  injection Hb as _ ->.
  assert (byDestOk byDest) as Hok
    by (apply (subwayLoop_ok _ _ _ _ _ _ Hloop); split; constructor).
  pose proof (perm_trans (objectValues_Permutation byDest)
                (sortBy_Permutation firstMinutes (objectValues byDest)))
    as Hperm.
  split.
  - apply kept_destinations_distinct; rewrite cutTrain_destinations.
    apply (Permutation_NoDup (Permutation_map destination Hperm)).
    now apply byDestOk_destinations.
  - intros t Ht; apply filter_In in Ht; destruct Ht as [Ht Hw]; split.
    + unfold wantedB in Hw; unfold wantedDestination.
      destruct (destination t); try discriminate; eauto.
    + apply in_map_iff in Ht; destruct Ht as (g & <- & Hg).
      apply (Permutation_in _ (Permutation_sym Hperm)) in Hg.
      apply in_map_iff in Hg; destruct Hg as ([k g'] & Hsnd & Hin).
      simpl in Hsnd; subst g'.
      destruct Hok as [_ Hall]; rewrite Forall_forall in Hall.
      destruct (Hall _ Hin) as [_ Hne]; simpl in Hne.
      unfold cutTrain; cbn [departures]; rewrite length_firstn.
      destruct (departures g); [congruence | cbn [List.length]; lia].
Qed.

Lemma replaceAt_snd {A : Type} (P : A -> Prop) (key : string) (x : A)
    (props : list (string * A)) :
  P x -> Forall (fun p => P (snd p)) props ->
  Forall (fun p => P (snd p)) (replaceAt key x props).
Proof.
  intros Hx; induction 1 as [| [k y] rest Hy Hrest IH]; simpl; [constructor |].
  destruct (key =? k)%string; constructor; simpl; assumption.
Qed.

Lemma isoOfSeconds_inv (t : value) (iso : string) :
  isoOfSeconds stringToNumber toISOString t = Some iso ->
  exists ms, timeClip ms = Some ms /\ iso = toISOString ms.
Proof.
  unfold isoOfSeconds; intros H.
  stepo H as n Hn. stepo H as seconds Hs. stepo H as tsMs Hclip.
  injection H as <-.
  exists tsMs; split; [| reflexivity].
  unfold timeClip in *.
  destruct (Z.abs (seconds * 1000) <=? 8640000000000000) eqn:Hle;
    [| discriminate].
  injection Hclip as <-; rewrite Hle; reflexivity.
Qed.

Lemma subwayStep_ownKeys (clock : nat -> Z) (byDest byDest' : list (string * train))
    (ticks ticks' : nat) (st : value) :
  step clock (byDest, ticks) st = Some (byDest', ticks') ->
  ownKeys byDest -> ownKeys byDest'.
Proof.
  unfold subwayStep, ownKeys; intros H Hall.
  stepo H as trip Htrip.
  match type of H with
  | (if ?c then _ else _) = _ => destruct c
  end; [injection H as <- <-; assumption |].
  stepo H as iso Hiso. stepo H as key Hkey.
  stepo H as group Hgroup. destruct group as [byDest1 g].
  stepo H as mins Hmins. stepo H as abs Habs.
  injection H as <- <-.
  rewrite replaceAt_keys.
  destruct (lookup key byDest) as [g0 |].
  - injection Hgroup as <- <-; assumption.
  - destruct (inheritedName key) eqn:Hkeyname; [discriminate |].
    injection Hgroup as <- <-.
    rewrite map_app; apply Forall_app; split; [assumption |].
    constructor; [assumption | constructor].
Qed.

Lemma subwayStep_inherited (clock : nat -> Z) (byDest : list (string * train))
    (ticks : nat) (st trip : value) (key : string) :
  ownKeys byDest ->
  get st "trip" = Ok trip ->
  destinationOf trip = VStr key -> inheritedName key = true ->
  truthy (timeOf st) = true ->
  step clock (byDest, ticks) st = None.
Proof.
  unfold ownKeys; intros Hall Htrip Hdest Hkey Ht.
  unfold subwayStep; rewrite Htrip; cbn [caught andThen].
  fold (destinationOf trip); fold (timeOf st).
  rewrite Ht, Hdest; cbn [negb].
  destruct (isoOfSeconds _ _ _); [| reflexivity].
  cbn [andThen toStr caught].
  destruct (lookup key byDest) as [g |] eqn:Hl.
  - apply lookup_In in Hl.
    rewrite Forall_forall in Hall.
    assert (inheritedName key = false) as Hown
      by (apply Hall; exact (in_map fst _ _ Hl)).
    congruence.
  - rewrite Hkey; reflexivity.
Qed.

(** X18.  A stop time that has a time and whose destination is named like a
    member every object inherits ("constructor", "toString", "__proto__",
    ...) makes the whole answer a 500: the loop finds the inherited member
    where it expects its own record, and the push on it throws. *)
Theorem inherited_destination_name_fails
    (clock : nat -> Z) (data v : value) (sts : list value)
    (st trip : value) (key : string) :
  get data "stopTimes" = Ok v ->
  iterate (or_ v (VArr [])) = Ok sts ->
  In st sts ->
  get st "trip" = Ok trip ->
  destinationOf trip = VStr key -> inheritedName key = true ->
  truthy (timeOf st) = true ->
  handle (Some (mkReply true (Some data))) clock
  = mkSubwayResponse 500 (SubwayError "Subway API error").
Proof.
  intros Hget Hiter Hin Htrip Hdest Hkey Ht.
  unfold subwayHandler, subwayTry.
  cbn [andThen reply_ok reply_json negb].
  rewrite Hget; cbn [caught andThen]; rewrite Hiter; cbn [caught andThen].
  assert (forall byDest ticks, ownKeys byDest ->
            forEach (step clock) sts (byDest, ticks) = None) as Hloop.
  { clear Hiter; induction sts as [| a sts IH]; [destruct Hin |].
    intros byDest ticks Hown; cbn [forEach].
    destruct (step clock (byDest, ticks) a) as [[b1 t1] |] eqn:Hstep;
      [| reflexivity].
    cbn [andThen]. destruct Hin as [-> | Hin].
    - rewrite (subwayStep_inherited clock byDest ticks st trip key
                 Hown Htrip Hdest Hkey Ht) in Hstep; discriminate.
    - apply (IH Hin). exact (subwayStep_ownKeys _ _ _ _ _ _ Hstep Hown). }
  rewrite (Hloop [] 0%nat); [reflexivity | constructor].
Qed.

Section Coherent.
(** The date parser reads back the ISO text of every valid time value. *)
Hypothesis parse_toISOString :
  forall ms, timeClip ms = Some ms -> Date_parse (toISOString ms) = Some ms.

Lemma subwayStep_timed (clock : nat -> Z) (byDest byDest' : list (string * train))
    (ticks ticks' : nat) (st : value) :
  step clock (byDest, ticks) st = Some (byDest', ticks') ->
  byDestTimed byDest -> byDestTimed byDest'.
Proof.
  unfold subwayStep, byDestTimed; intros H Hall.
  stepo H as trip Htrip.
  match type of H with
  | (if ?c then _ else _) = _ => destruct c
  end; [injection H as <- <-; assumption |].
  stepo H as iso Hiso. stepo H as key Hkey.
  stepo H as group Hgroup. destruct group as [byDest1 g].
  stepo H as mins Hmins. stepo H as abs Habs.
  injection H as <- <-.
  destruct (isoOfSeconds_inv _ _ Hiso) as (ms & Hclip & ->).
  apply caught_Some in Hmins; unfold minutesFromNow in Hmins; simpl in Hmins.
  rewrite (parse_toISOString ms Hclip) in Hmins; injection Hmins as <-.
  assert (Forall (fun p => Forall departureOk (departures (snd p))) byDest1 /\
          Forall departureOk (departures g)) as [Hall1 Hg].
  { destruct (lookup key byDest) as [g0 |] eqn:Hl.
    - injection Hgroup as <- <-; split; [assumption |].
      apply lookup_In in Hl; rewrite Forall_forall in Hall.
      exact (Hall _ Hl).
    - destruct (inheritedName key); [discriminate |].
      injection Hgroup as <- <-; split; [| constructor].
      apply Forall_app; split; [assumption |].
      constructor; [constructor | constructor]. }
  apply (replaceAt_snd (fun t => Forall departureOk (departures t)));
    [| assumption].
  simpl; apply Forall_app; split; [assumption |].
  constructor; [| constructor].
  eexists; split; [reflexivity | lia].
Qed.

Lemma subwayLoop_timed (clock : nat -> Z) (sts : list value)
    (byDest byDest' : list (string * train)) (ticks ticks' : nat) :
  forEach (step clock) sts (byDest, ticks) = Some (byDest', ticks') ->
  byDestTimed byDest -> byDestTimed byDest'.
Proof.
  revert byDest ticks; induction sts as [| st sts IH]; intros byDest ticks H Hok;
    simpl in H.
  - injection H as <- <-; assumption.
  - stepo H as s1 Hs1. destruct s1 as [b1 t1].
    exact (IH _ _ H (subwayStep_timed _ _ _ _ _ _ Hs1 Hok)).
Qed.

(** X19.  On an engine whose parser reads back its own ISO text, every
    departure of a 200 answer has a minute count that is a number and not
    negative, and the trains stand in ascending order of their first
    departure. *)
Theorem subway_trains_by_first_departure
    (fetched : option reply) (clock : nat -> Z)
    (name : value) (ts : list train) :
  handle fetched clock = mkSubwayResponse 200 (SubwayBoard name ts) ->
  (forall t, In t ts -> Forall departureOk (departures t)) /\
  StronglySorted firstNotAfter ts.
Proof.
  intros H; destruct (subway_success_inv _ _ _ H)
    as (data & sts & byDest & ticks & _ & _ & Hloop & Hb).
  injection Hb as _ ->.
  assert (byDestOk byDest) as [_ Hok]
    by (apply (subwayLoop_ok _ _ _ _ _ _ Hloop); split; constructor).
  assert (byDestTimed byDest) as Htimed
    by (apply (subwayLoop_timed _ _ _ _ _ _ Hloop); constructor).
  pose proof (objectValues_Permutation byDest) as Hvalues.
  pose proof (sortBy_Permutation firstMinutes (objectValues byDest)) as Hsort.
  assert (forall g, In g (objectValues byDest) ->
                    Forall departureOk (departures g) /\ departures g <> [])
    as Hgroups.
  { intros g Hg. apply (Permutation_in _ (Permutation_sym Hvalues)) in Hg.
    apply in_map_iff in Hg; destruct Hg as ([k g'] & Hsnd & Hin).
    simpl in Hsnd; subst g'.
    unfold byDestTimed in Htimed; rewrite Forall_forall in Htimed, Hok.
    split; [exact (Htimed _ Hin) | exact (proj2 (Hok _ Hin))]. }
  split.
  - intros t Ht; apply filter_In in Ht; destruct Ht as [Ht _].
    apply in_map_iff in Ht; destruct Ht as (g & <- & Hg).
    apply (Permutation_in _ (Permutation_sym Hsort)) in Hg.
    unfold cutTrain; cbn [departures].
    apply firstn_Forall; exact (proj1 (Hgroups g Hg)).
  - apply filter_StronglySorted.
    assert (StronglySorted firstNotAfter
              (sortBy firstMinutes (objectValues byDest))) as Hs.
    { apply sortBy_sorted. apply Forall_forall; intros g Hg.
      destruct (Hgroups g Hg) as [Hd Hne]; unfold hasKey, firstMinutes.
      destruct (departures g) as [| d rest]; [congruence |].
      inversion Hd as [| ? ? (n & Hn & _) _]; subst; eauto. }
    revert Hs; generalize (sortBy firstMinutes (objectValues byDest)).
    induction 1 as [| g l Hl IH Hg]; simpl; constructor; [assumption |].
    rewrite Forall_forall in *; intros t Ht.
    apply in_map_iff in Ht; destruct Ht as (g' & <- & Hg').
    unfold firstNotAfter, keyNotAfter; rewrite !cutTrain_firstMinutes.
    exact (Hg _ Hg').
Qed.

End Coherent.

End SubwayFacts.

(* ================================================================= *)
(** ** The added statements at sample inputs *)

Section MoreInstances.
#[local] Existing Instance Sample.host.

Lemma walking_ride_contributes_nothing_witness :
  rideStep Rev15 Sample.clock EC_S_STOP_ID Sample.routes Sample.st0
    Sample.walkingRide = Ok Sample.st0.
Proof.
  apply (walking_ride_contributes_nothing Rev15 Sample.clock EC_S_STOP_ID
           Sample.routes Sample.st0 Sample.walkingRide "Walking");
    vm_compute; reflexivity.
Defined.

Lemma excluded_route_contributes_nothing_witness :
  considerRide Rev15 Sample.clock EC_S_STOP_ID Sample.lateRide
    Board.manhattanvilleInfo Sample.st0 = Ok Sample.st0.
Proof.
  apply (excluded_route_contributes_nothing Rev15 Sample.clock EC_S_STOP_ID
           Sample.lateRide Board.manhattanvilleInfo Sample.st0
           "Manhattanville Shuttle" "manhattanville").
  - left; reflexivity.
  - reflexivity.
  - reflexivity.
  - left; reflexivity.
  - vm_compute; reflexivity.
Defined.



Lemma entry_fields_witness :
  truthy (rawISO Sample.lateEntry) = true /\
  routeName Sample.lateEntry = prop Sample.greenInfo "name" /\
  isBucketKey "green" /\
  formatTime (rawISO Sample.lateEntry) = Ok (time Sample.lateEntry) /\
  exists t,
    newDate (rawISO Sample.lateEntry) = Ok t /\
    (t = None ->
     time Sample.lateEntry = "NaN:NaN am" /\ inMinutes Sample.lateEntry = None /\
     delayed Sample.lateEntry = false /\ direct Sample.lateEntry = false) /\
    (forall ms, t = Some ms ->
       inMinutes Sample.lateEntry
       = Some (Z.max 0 ((ms - Sample.clock (st_ticks Sample.st0) + 30000)
                        / 60000))).
Proof.
  apply (entry_fields Rev15 Sample.clock EC_S_STOP_ID Sample.lateRide
           Sample.greenInfo Sample.st0 Sample.st1 "green" Sample.lateEntry);
    vm_compute; reflexivity.
Defined.

Lemma minutesFromNow_rounds_witness :
  exists n,
    minutesFromNow (VStr "2024-03-01T10:03:00Z") 1709286900000 = Ok (Some n) /\
    0 <= n /\
    (1709287380000 - 1709286900000 < 30000 -> n = 0) /\
    (30000 <= 1709287380000 - 1709286900000 ->
     60000 * n - 30000 <= 1709287380000 - 1709286900000 < 60000 * n + 30000).
Proof.
  apply (minutesFromNow_rounds (VStr "2024-03-01T10:03:00Z") 1709287380000
           1709286900000).
  vm_compute; reflexivity.
Defined.

Lemma formatTime_clock_text_witness :
  formatTime (VStr "2024-03-01T10:03:00Z")
  = Ok (clockText (getHours 1709287380000) (getMinutes 1709287380000)) /\
  1 <= hour12 (getHours 1709287380000) <= 12 /\
  String.length (twoDigits (getMinutes 1709287380000)) = 2%nat.
Proof.
  apply (formatTime_clock_text (VStr "2024-03-01T10:03:00Z") 1709287380000).
  - vm_compute; reflexivity.
  - vm_compute; split; [discriminate | reflexivity].
  - vm_compute; split; [discriminate | reflexivity].
Defined.

Lemma sortAndTake3_keeps_the_earliest_witness :
  exists rest,
    Permutation
      [Sample.tripAt "2024-03-01T10:15:00Z"; Sample.tripAt "2024-03-01T10:01:00Z";
       Sample.tripAt "2024-03-01T10:03:00Z"; Sample.tripAt "2024-03-01T09:59:00Z"]
      ([Sample.tripAt "2024-03-01T09:59:00Z"; Sample.tripAt "2024-03-01T10:01:00Z";
        Sample.tripAt "2024-03-01T10:03:00Z"] ++ rest) /\
    List.length
      [Sample.tripAt "2024-03-01T09:59:00Z"; Sample.tripAt "2024-03-01T10:01:00Z";
       Sample.tripAt "2024-03-01T10:03:00Z"]
    = Nat.min 3 4 /\
    (validTimes
       [Sample.tripAt "2024-03-01T10:15:00Z"; Sample.tripAt "2024-03-01T10:01:00Z";
        Sample.tripAt "2024-03-01T10:03:00Z"; Sample.tripAt "2024-03-01T09:59:00Z"] ->
     forall a b,
       In a [Sample.tripAt "2024-03-01T09:59:00Z";
             Sample.tripAt "2024-03-01T10:01:00Z";
             Sample.tripAt "2024-03-01T10:03:00Z"] ->
       In b rest -> notAfter a b).
Proof.
  apply (sortAndTake3_keeps_the_earliest
           [Sample.tripAt "2024-03-01T10:15:00Z";
            Sample.tripAt "2024-03-01T10:01:00Z";
            Sample.tripAt "2024-03-01T10:03:00Z";
            Sample.tripAt "2024-03-01T09:59:00Z"]).
  vm_compute; reflexivity.
Defined.

Lemma sort_keeps_ascending_order_witness :
  sortEntries
    [Sample.tripAt "2024-03-01T09:59:00Z"; Sample.tripAt "2024-03-01T10:01:00Z";
     Sample.tripAt "2024-03-01T10:01:00Z"]
  = Ok [Sample.tripAt "2024-03-01T09:59:00Z"; Sample.tripAt "2024-03-01T10:01:00Z";
        Sample.tripAt "2024-03-01T10:01:00Z"].
Proof.
  apply sort_keeps_ascending_order.
  repeat constructor; eexists; eexists;
    (split; [reflexivity | split; [reflexivity | vm_compute; discriminate]]).
Defined.

Lemma unreadable_clock_text_empties_the_bucket_witness :
  getNYCTime 0 = None /\
  filterTripsAfterNYCNow 0 [Sample.tripAt "2024-03-01T10:01:00Z"] = Ok [] /\
  @nil entry = [].
Proof.
  split; [vm_compute; reflexivity |].
  split; [vm_compute; reflexivity |].
  apply (unreadable_clock_text_empties_the_bucket 0
           [Sample.tripAt "2024-03-01T10:01:00Z"] []);
    vm_compute; reflexivity.
Defined.

Lemma filter_after_normalizer_witness :
  exists kept,
    filterTripsAfterNYCNow 1709305200000 (out_green Sample.twinOutput) = Ok kept /\
    (List.length kept <= 3)%nat /\
    (forall t, In t kept ->
       In t (out_green Sample.twinOutput) /\
       exists now x, getNYCTime 1709305200000 = Some now /\
                     instantOf t = Some x /\ now <= x) /\
    (ascending (out_green Sample.twinOutput) -> ascending kept) /\
    (getNYCTime 1709305200000 = None -> kept = []).
Proof.
  apply (filter_after_normalizer Rev15 Sample.clock Sample.twinDocument
           EC_S_STOP_ID "EC S" Sample.twinOutput 1709305200000
           (out_green Sample.twinOutput)).
  - vm_compute; reflexivity.
  - left; reflexivity.
Defined.

Lemma shuttle_success_is_complete_witness :
  exists payloadEC payload120 dataEC data120 parsedEC parsed120 ecS s120,
    ShuttleBody Sample.twinOutput (mkOutput "120 S" [] [] [])
    = ShuttleBody ecS s120 /\
    buildTripShotPayload Board.getFullYear Board.getMonth Board.getDate
      Board.toISOString Board.location Rev15 (Board.instant 0%nat) "EC S"
      Board.location EC_S_STOP_ID = Some payloadEC /\
    buildTripShotPayload Board.getFullYear Board.getMonth Board.getDate
      Board.toISOString Board.location Rev15 (Board.instant 1%nat) "120 S"
      Board.location S120_STOP_ID = Some payload120 /\
    Board.upstream payloadEC = Some (mkReply true (Some dataEC)) /\
    Board.upstream payload120 = Some (mkReply true (Some data120)) /\
    parseTripShotCommutePlanForOrigin Rev15 Sample.clock dataEC EC_S_STOP_ID
      "EC S" = Ok parsedEC /\
    parseTripShotCommutePlanForOrigin Rev15 Sample.clock data120 S120_STOP_ID
      "120 S" = Ok parsed120 /\
    stopName ecS = "EC S" /\ stopName s120 = "120 S" /\
    sizeWithin 3 ecS /\ sizeWithin 3 s120 /\
    out_green ecS
      = filter (keptAt (Board.instant 2%nat)) (out_green parsedEC) /\
    out_red ecS = filter (keptAt (Board.instant 3%nat)) (out_red parsedEC) /\
    out_blue ecS = filter (keptAt (Board.instant 4%nat)) (out_blue parsedEC) /\
    out_green s120
      = filter (keptAt (Board.instant 5%nat)) (out_green parsed120) /\
    out_red s120 = filter (keptAt (Board.instant 6%nat)) (out_red parsed120) /\
    out_blue s120 = filter (keptAt (Board.instant 7%nat)) (out_blue parsed120).
Proof.
  apply (shuttle_success_is_complete Board.getFullYear Board.getMonth
           Board.getDate Board.toISOString Board.location Board.location
           Board.location Rev15 Board.upstream Board.instant
           Sample.clock Sample.clock
           (ShuttleBody Sample.twinOutput (mkOutput "120 S" [] [] []))).
  vm_compute; reflexivity.
Defined.

Lemma shuttle_answers_well_shaped_documents_witness :
  status (Board.shuttle Rev15 Board.instant) = 200.
Proof.
  apply (shuttle_answers_well_shaped_documents Board.getFullYear Board.getMonth
           Board.getDate Board.toISOString Board.location Board.location
           Board.location Rev15 Board.upstream Board.instant
           Sample.clock Sample.clock).
  - intros payload; exists Sample.twinDocument; split; reflexivity.
  - intros _; split; vm_compute; discriminate.
Defined.

Lemma shuttle_rev15_needs_a_readable_clock_witness :
  Board.shuttle Rev15 (fun _ => 0)
  = mkResponse 500 (ErrorBody "Shuttle API error") /\
  (forall n originName originLocation originStopId,
     buildTripShotPayload Board.getFullYear Board.getMonth Board.getDate
       Board.toISOString Board.location Rev14 ((fun _ : nat => 0) n)
       originName originLocation originStopId <> None).
Proof.
  apply (shuttle_rev15_needs_a_readable_clock Board.getFullYear Board.getMonth
           Board.getDate Board.toISOString Board.location Board.location
           Board.location Board.upstream (fun _ => 0)
           Sample.clock Sample.clock).
  left; vm_compute; reflexivity.
Defined.

Lemma subway_board_trains_witness :
  NoDup (map destination Board.trains) /\
  forall t, In t Board.trains ->
    wantedDestination t /\
    (1 <= List.length (departures t) <= 3)%nat.
Proof.
  apply (subway_board_trains Board.stringToNumber Board.toISOString
           (Board.fetched Board.stopTimes) Sample.clock (VStr "125 St")
           Board.trains).
  vm_compute; reflexivity.
Defined.

Lemma inherited_destination_name_fails_witness :
  subwayHandler Board.stringToNumber Board.toISOString
    (Some (mkReply true
             (Some (Board.feed [Board.stopTime "South Ferry" 1709287380;
                                Board.stopTime "constructor" 1709287380]))))
    Sample.clock
  = mkSubwayResponse 500 (SubwayError "Subway API error").
Proof.
  apply (inherited_destination_name_fails Board.stringToNumber
           Board.toISOString Sample.clock
           (Board.feed [Board.stopTime "South Ferry" 1709287380;
                        Board.stopTime "constructor" 1709287380])
           (VArr [Board.stopTime "South Ferry" 1709287380;
                  Board.stopTime "constructor" 1709287380])
           [Board.stopTime "South Ferry" 1709287380;
            Board.stopTime "constructor" 1709287380]
           (Board.stopTime "constructor" 1709287380)
           (VObj [("destination", VObj [("name", VStr "constructor")]);
                  ("route", VObj [("shortName", VStr "1")])])
           "constructor");
    try (vm_compute; reflexivity).
  right; left; reflexivity.
Defined.

End MoreInstances.

Section DecimalInstances.
#[local] Existing Instance Board.decimalHost.

Lemma parse_print (ms : Z) : Board.parse (Board.print ms) = Some ms.
Proof.
  unfold Board.parse, Board.print.
  change (Ascii.eqb "T" "T") with true; cbv iota.
  pose proof (DecimalZ.of_to ms) as Hms.
  destruct (Z.to_int ms) as [u | u]; destruct u;
    try (rewrite NilZero.isi by discriminate; cbn [option_map];
         rewrite Hms; reflexivity).
  - rewrite NilZero.isi_posnil; cbn in *; congruence.
  - rewrite NilZero.isi_negnil; cbn in *; congruence.
Qed.

Lemma subway_trains_by_first_departure_witness :
  (forall t, In t Board.sortedTrains -> Forall departureOk (departures t)) /\
  StronglySorted firstNotAfter Board.sortedTrains.
Proof.
  apply (subway_trains_by_first_departure (host := Board.decimalHost)
           Board.stringToNumber Board.print
           (fun ms _ => parse_print ms)
           (Board.fetched Board.laterFirst) (fun _ => 0) (VStr "125 St")
           Board.sortedTrains).
  vm_compute; reflexivity.
Defined.

End DecimalInstances.
